(** * OpenSpace voice pipeline, IPC handler, profile editor and path module

    A shallow embedding of the parts of the OpenSpace sources that the
    specification makes claims about:

    - [src/interaction/voicecommandhandler.cpp] and its header
      (module [Voice]),
    - the Python IPC handler, [PythonIPCHandler::sendMessage] (module [IPC]),
    - [ProfileEdit::duplicateProfile] (module [ProfileEdit]),
    - the constructor of [autonavigation::Path] (module [Autonavigation]).

    C++ member functions become functions on explicit state.  Everything the
    code obtains from outside the process (the capture device, the clock, the
    file system, the transcription subprocess, the socket) is an explicit
    argument of the call that consumes it. *)

From Stdlib Require Import ZArith Ascii String List Lia Bool Sorted.
From Stdlib Require PrimFloat.
From stdpp Require Import base gmap strings list pretty.

Local Open Scope Z_scope.

(** ** Strings as [std::string] uses them *)

Module Str.

Definition empty (s : string) : bool :=
  match s with EmptyString => true | String _ _ => false end.

Fixpoint mem (c : ascii) (chars : string) : bool :=
  match chars with
  | EmptyString => false
  | String d r => if Ascii.eqb c d then true else mem c r
  end.

(** [s.find_first_not_of(chars)]; [None] is [npos]. *)
Fixpoint find_first_not_of (chars s : string) : option nat :=
  match s with
  | EmptyString => None
  | String c r =>
      if mem c chars then option_map S (find_first_not_of chars r)
      else Some O
  end.

(** [s.find_last_not_of(chars)]; [None] is [npos]. *)
Fixpoint find_last_not_of (chars s : string) : option nat :=
  match s with
  | EmptyString => None
  | String c r =>
      match find_last_not_of chars r with
      | Some i => Some (S i)
      | None => if mem c chars then None else Some O
      end
  end.

(** [s.rfind(c)]; [None] is [npos]. *)
Fixpoint rfind (c : ascii) (s : string) : option nat :=
  match s with
  | EmptyString => None
  | String d r =>
      match rfind c r with
      | Some i => Some (S i)
      | None => if Ascii.eqb d c then Some O else None
      end
  end.

(** [s.substr(pos, len)] and [s.substr(pos)], for [pos <= s.size()]. *)
Definition substr (pos len : nat) (s : string) : string :=
  String.substring pos len s.

Definition substr_from (pos : nat) (s : string) : string :=
  String.substring pos (String.length s - pos) s.

(** Reading a [char] buffer as a C string stops at the first NUL. *)
Fixpoint c_str (s : string) : string :=
  match s with
  | EmptyString => EmptyString
  | String c r => if Ascii.eqb c Ascii.zero then EmptyString else String c (c_str r)
  end.

Definition whitespace : string :=
  String " " (String "009" (String "010" (String "013" EmptyString))).

End Str.

(** ** JSON values, as [nlohmann::json] presents them to the handler *)

Module Json.

#[local] Unset Elimination Schemes.

Inductive json : Type :=
| JNull
| JBool (b : bool)
| JNumber (n : Z)
| JString (s : string)
| JArray (items : list json)
| JObject (members : list (string * json)).

#[local] Set Elimination Schemes.

(** An object keeps one value per key; when a key is repeated in the text
    the value read last is the one kept. *)
Fixpoint assoc_last (k : string) (m : list (string * json)) : option json :=
  match m with
  | [] => None
  | (k', v) :: r =>
      match assoc_last k r with
      | Some v' => Some v'
      | None => if String.eqb k k' then Some v else None
      end
  end.

(** [j.contains(key)] *)
Definition contains (j : json) (k : string) : bool :=
  match j with
  | JObject m => match assoc_last k m with Some _ => true | None => false end
  | _ => false
  end.

(** What evaluating an expression on a [const json] can do: yield a value,
    throw a [json::exception] with a message, or have no defined behaviour
    ([operator[]] on a [const] object with a key that is absent). *)
Inductive access (A : Type) : Type :=
| Got (a : A)
| Throws (what : string)
| Undefined.
Arguments Got {A} a.
Arguments Throws {A} what.
Arguments Undefined {A}.

(** The library's words for a failed conversion are not part of this
    repository; they are supplied by whoever instantiates [Lib]. *)
Record Lib : Type := {
  parse : string -> json + string;        (* [json::parse], or [what()] *)
  type_error_what : string -> json -> string
}.

Section Access.
Variable L : Lib.

(** [j[key]] on a [const json] *)
Definition index (j : json) (k : string) : access json :=
  match j with
  | JObject m =>
      match assoc_last k m with
      | Some v => Got v
      | None => Undefined
      end
  | _ => Throws (type_error_what L "operator[]" j)
  end.

(** [j.get<std::string>()] *)
Definition get_string (j : json) : access string :=
  match j with
  | JString s => Got s
  | _ => Throws (type_error_what L "string" j)
  end.

(** [j.get<bool>()] *)
Definition get_bool (j : json) : access bool :=
  match j with
  | JBool b => Got b
  | _ => Throws (type_error_what L "boolean" j)
  end.

Definition bind {A B} (x : access A) (f : A -> access B) : access B :=
  match x with
  | Got a => f a
  | Throws w => Throws w
  | Undefined => Undefined
  end.

End Access.

End Json.


(** ** The Voice Command Handler *)

Module Voice.

Inductive VoiceState : Type :=
| Idle
| Recording
| Processing
| GeneratingScript
| Success
| Error.

#[global] Instance VoiceState_eq_dec : EqDecision VoiceState.
Proof. solve_decision. Defined.

(** [static_cast<int>(state)] *)
Definition VoiceState_code (s : VoiceState) : Z :=
  match s with
  | Idle => 0
  | Recording => 1
  | Processing => 2
  | GeneratingScript => 3
  | Success => 4
  | Error => 5
  end.

(** [CallbackHandle] is [int]. *)
Definition INT_MAX : Z := 2147483647.

(** The value an [int] holds after an arithmetic result [z] on the two's
    complement machines the program is built for (the language itself leaves
    signed overflow undefined). *)
Definition wrap_int (z : Z) : Z := (z + 2 ^ 31) mod 2 ^ 32 - 2 ^ 31.

(** A [StateChangeCallback] is an opaque [std::function<void()>]; the model
    identifies it by a number.  The callbacks this repository registers
    ([VoiceCommandTopic::sendStateUpdate]) read [state()], [transcription()]
    and [error()] and never call back into the handler; running one is
    recorded as a [Notification] carrying what it could read. *)
Definition Callback : Type := nat.

Record Notification : Type := {
  n_handle : Z;
  n_callback : Callback;
  n_state : VoiceState;
  n_transcription : string;
  n_error : string
}.

#[global] Instance Notification_eq_dec : EqDecision Notification.
Proof. solve_decision. Defined.

(** The data members of [VoiceCommandHandler].  [_audioDevice] records
    whether the pointer is non-null; a captured sample is kept as the bit
    pattern of its 32-bit float. *)
Record VoiceCommandHandler : Type := {
  _isRecording : bool;
  _tempDirectory : string;
  _audioDevice : bool;
  _capturedAudio : list Z;
  _lastAudioPath : string;
  _needsRetry : bool;
  _state : VoiceState;
  _transcription : string;
  _error : string;
  _nextCallbackHandle : Z;
  _stateChangeCallbacks : list (Z * Callback)
}.

(** What the handler acts on outside itself. *)
Record World : Type := {
  files : gset string;            (* paths that exist on disk *)
  capturing : bool;               (* the capture device has been started *)
  notified : list Notification;   (* callback runs so far, oldest first *)
  scriptQueue : list string;      (* scripts handed to the script engine *)
  idleTimers : nat                (* detached threads waiting to set Idle *)
}.

Definition St : Type := VoiceCommandHandler * World.

(** The handler as its constructor and default member initialisers leave it. *)
Definition constructed : VoiceCommandHandler := {|
  _isRecording := false;
  _tempDirectory := "";
  _audioDevice := false;
  _capturedAudio := [];
  _lastAudioPath := "";
  _needsRetry := false;
  _state := Idle;
  _transcription := "";
  _error := "";
  _nextCallbackHandle := 0;
  _stateChangeCallbacks := []
|}.

Definition tempDirPath : string := "/tmp/openspace_voice/".
(** What one call into the handler finds in its surroundings. *)
Record Env : Type := {
  device_init_ok : bool;   (* [ma_device_init] returns [MA_SUCCESS] *)
  device_start_ok : bool;  (* [ma_device_start] returns [MA_SUCCESS] *)
  clock_ms : Z;            (* milliseconds since the epoch *)
  file_open_ok : bool;     (* the output stream opens *)
  file_write_ok : bool;    (* the stream is still good after the write *)
  remove_throws : bool;    (* [std::filesystem::remove] throws *)
  popen_ok : bool;         (* [popen] returns a pipe *)
  pipe_output : string;    (* everything the subprocess writes *)
  pipe_status : Z          (* what [pclose] returns *)
}.

(** *** Field updates *)

Definition with_state (s : VoiceState) (h : VoiceCommandHandler) :=
  {| _isRecording := bool_decide (s = Recording);
     _tempDirectory := _tempDirectory h;
     _audioDevice := _audioDevice h;
     _capturedAudio := _capturedAudio h;
     _lastAudioPath := _lastAudioPath h;
     _needsRetry := _needsRetry h;
     _state := s;
     _transcription := _transcription h;
     _error := _error h;
     _nextCallbackHandle := _nextCallbackHandle h;
     _stateChangeCallbacks := _stateChangeCallbacks h |}.

Definition with_error (e : string) (h : VoiceCommandHandler) :=
  {| _isRecording := _isRecording h;
     _tempDirectory := _tempDirectory h;
     _audioDevice := _audioDevice h;
     _capturedAudio := _capturedAudio h;
     _lastAudioPath := _lastAudioPath h;
     _needsRetry := _needsRetry h;
     _state := _state h;
     _transcription := _transcription h;
     _error := e;
     _nextCallbackHandle := _nextCallbackHandle h;
     _stateChangeCallbacks := _stateChangeCallbacks h |}.

Definition with_transcription (t : string) (h : VoiceCommandHandler) :=
  {| _isRecording := _isRecording h;
     _tempDirectory := _tempDirectory h;
     _audioDevice := _audioDevice h;
     _capturedAudio := _capturedAudio h;
     _lastAudioPath := _lastAudioPath h;
     _needsRetry := _needsRetry h;
     _state := _state h;
     _transcription := t;
     _error := _error h;
     _nextCallbackHandle := _nextCallbackHandle h;
     _stateChangeCallbacks := _stateChangeCallbacks h |}.

Definition with_audio (dev : bool) (audio : list Z) (h : VoiceCommandHandler) :=
  {| _isRecording := _isRecording h;
     _tempDirectory := _tempDirectory h;
     _audioDevice := dev;
     _capturedAudio := audio;
     _lastAudioPath := _lastAudioPath h;
     _needsRetry := _needsRetry h;
     _state := _state h;
     _transcription := _transcription h;
     _error := _error h;
     _nextCallbackHandle := _nextCallbackHandle h;
     _stateChangeCallbacks := _stateChangeCallbacks h |}.

Definition with_audio_file (path : string) (retry : bool)
    (h : VoiceCommandHandler) :=
  {| _isRecording := _isRecording h;
     _tempDirectory := _tempDirectory h;
     _audioDevice := _audioDevice h;
     _capturedAudio := _capturedAudio h;
     _lastAudioPath := path;
     _needsRetry := retry;
     _state := _state h;
     _transcription := _transcription h;
     _error := _error h;
     _nextCallbackHandle := _nextCallbackHandle h;
     _stateChangeCallbacks := _stateChangeCallbacks h |}.

Definition with_tempDirectory (dir : string) (h : VoiceCommandHandler) :=
  {| _isRecording := _isRecording h;
     _tempDirectory := dir;
     _audioDevice := _audioDevice h;
     _capturedAudio := _capturedAudio h;
     _lastAudioPath := _lastAudioPath h;
     _needsRetry := _needsRetry h;
     _state := _state h;
     _transcription := _transcription h;
     _error := _error h;
     _nextCallbackHandle := _nextCallbackHandle h;
     _stateChangeCallbacks := _stateChangeCallbacks h |}.

Definition with_callbacks (next : Z) (cbs : list (Z * Callback))
    (h : VoiceCommandHandler) :=
  {| _isRecording := _isRecording h;
     _tempDirectory := _tempDirectory h;
     _audioDevice := _audioDevice h;
     _capturedAudio := _capturedAudio h;
     _lastAudioPath := _lastAudioPath h;
     _needsRetry := _needsRetry h;
     _state := _state h;
     _transcription := _transcription h;
     _error := _error h;
     _nextCallbackHandle := next;
     _stateChangeCallbacks := cbs |}.

Definition with_files (f : gset string) (w : World) :=
  {| files := f; capturing := capturing w; notified := notified w;
     scriptQueue := scriptQueue w; idleTimers := idleTimers w |}.

Definition with_capturing (c : bool) (w : World) :=
  {| files := files w; capturing := c; notified := notified w;
     scriptQueue := scriptQueue w; idleTimers := idleTimers w |}.

Definition with_notified (n : list Notification) (w : World) :=
  {| files := files w; capturing := capturing w; notified := n;
     scriptQueue := scriptQueue w; idleTimers := idleTimers w |}.

Definition with_script (code : string) (w : World) :=
  {| files := files w; capturing := capturing w; notified := notified w;
     scriptQueue := scriptQueue w ++ [code];
     idleTimers := idleTimers w |}.

Definition with_idleTimers (n : nat) (w : World) :=
  {| files := files w; capturing := capturing w; notified := notified w;
     scriptQueue := scriptQueue w; idleTimers := n |}.

(** *** [std::map<CallbackHandle, StateChangeCallback>]

    The entries are kept in ascending key order, which is the order a
    range-for over the map visits them in. *)

(** [m[k] = v] *)
Fixpoint callbacks_assign (k : Z) (v : Callback) (m : list (Z * Callback))
    : list (Z * Callback) :=
  match m with
  | [] => [(k, v)]
  | (k', v') :: r =>
      if k <? k' then (k, v) :: (k', v') :: r
      else if k =? k' then (k, v) :: r
      else (k', v') :: callbacks_assign k v r
  end.

(** [m.erase(k)] *)
Fixpoint callbacks_erase (k : Z) (m : list (Z * Callback))
    : list (Z * Callback) :=
  match m with
  | [] => []
  | (k', v') :: r =>
      if k =? k' then r else (k', v') :: callbacks_erase k r
  end.

(** *** State, error and transcription setters *)

(** One run of a registered callback, seeing the handler [h]. *)
Definition run_callback (h : VoiceCommandHandler) (entry : Z * Callback)
    : Notification :=
  {| n_handle := fst entry;
     n_callback := snd entry;
     n_state := _state h;
     n_transcription := _transcription h;
     n_error := _error h |}.

Definition setState (state : VoiceState) (st : St) : St :=
  let h := fst st in
  let w := snd st in
  if decide (_state h = state) then st
  else
    let h' := with_state state h in
    (h', with_notified
           (notified w ++ map (run_callback h') (_stateChangeCallbacks h')) w).

Definition setError (error : string) (st : St) : St :=
  let h := fst st in
  if decide (_error h = error) then st
  else
    let st' := (with_error error h, snd st) in
    if Str.empty error then st' else setState Error st'.

Definition cleanupAudioFile (e : Env) (st : St) : St :=
  let h := fst st in
  let w := snd st in
  if Str.empty (_lastAudioPath h) then st
  else if remove_throws e then st
  else (with_audio_file "" false h,
        with_files (files w ∖ {[ _lastAudioPath h ]}) w).

Definition setTranscription (e : Env) (transcription : string) (st : St) : St :=
  let h := fst st in
  if decide (_transcription h = transcription) then st
  else
    let st' := (with_transcription transcription h, snd st) in
    if Str.empty transcription then st'
    else setState Idle (cleanupAudioFile e st').

(** *** Callback registration *)

Definition addStateChangeCallback (callback : Callback)
    (h : VoiceCommandHandler) : Z * VoiceCommandHandler :=
  let handle := _nextCallbackHandle h in
  (handle,
   with_callbacks (wrap_int (handle + 1))
     (callbacks_assign handle callback (_stateChangeCallbacks h)) h).

Definition removeStateChangeCallback (handle : Z)
    (h : VoiceCommandHandler) : VoiceCommandHandler :=
  with_callbacks (_nextCallbackHandle h)
    (callbacks_erase handle (_stateChangeCallbacks h)) h.

(** *** Accessors *)

Definition isRecording (h : VoiceCommandHandler) : bool :=
  bool_decide (_state h = Recording).
Definition state (h : VoiceCommandHandler) : VoiceState := _state h.
Definition transcription (h : VoiceCommandHandler) : string := _transcription h.
Definition error (h : VoiceCommandHandler) : string := _error h.

(** *** Starting a recording *)

(** [initialize] sets the temporary directory (creating it on disk and
    registering the topic do not touch the modelled state). *)
Definition initialize (h : VoiceCommandHandler) : VoiceCommandHandler :=
  with_tempDirectory tempDirPath h.

Definition startRecording (e : Env) (st : St) : bool * St :=
  let h := fst st in
  let w := snd st in
  if decide (_state h = Recording) then
    (false, setError "Already recording" st)
  else if negb (_audioDevice h) && negb (device_init_ok e) then
    (* the device could not be initialised; the pointer stays null *)
    (false, setError "Failed to initialize audio capture" st)
  else
    let h1 := with_audio true [] h in
    if negb (device_start_ok e) then
      (false, setError "Failed to start audio capture" (h1, w))
    else
      let st1 := (h1, with_capturing true w) in
      (true, setState Recording (setTranscription e "" (setError "" st1))).


(** *** Saving the captured audio *)

(** [dir / name] for a relative [name]. *)
Definition path_append (dir name : string) : string :=
  if Str.empty dir then name
  else
    match Str.find_last_not_of "/" dir with
    | Some i =>
        if (S i =? String.length dir)%nat then dir +:+ "/" +:+ name
        else dir +:+ name
    | None => dir +:+ name
    end.

Definition audio_file_name (timestamp : Z) : string :=
  "audio_" +:+ pretty timestamp +:+ ".raw".

Definition saveAudioToTemp (e : Env) (st : St) : bool * St :=
  let h := fst st in
  let w := snd st in
  let audioPath := path_append (_tempDirectory h) (audio_file_name (clock_ms e)) in
  if negb (file_open_ok e) then (false, st)
  else
    let w1 := with_files (files w ∪ {[ audioPath ]}) w in
    if negb (file_write_ok e) then (false, (h, w1))
    else (true, (with_audio_file audioPath (_needsRetry h) h, w1)).

(** *** Reading the subprocess output *)

(** [fgets(buffer, n + 1, pipe)]: at most [n] characters, stopping after a
    newline.  Returns what was read and what is left in the pipe. *)
Fixpoint fgets (n : nat) (s : string) : string * string :=
  match n with
  | O => ("", s)
  | S n' =>
      match s with
      | EmptyString => ("", "")
      | String c r =>
          if Ascii.eqb c "010" then (String c "", r)
          else
            let rest := fgets n' r in
            (String c (fst rest), snd rest)
      end
  end.

(** The successive buffers the [while (fgets(...))] loop sees. *)
Fixpoint read_buffers (fuel : nat) (s : string) : list string :=
  match fuel with
  | O => []
  | S f =>
      match s with
      | EmptyString => []
      | String _ _ =>
          let buffer := fgets 1023 s in
          fst buffer :: read_buffers f (snd buffer)
      end
  end.

Definition pipe_buffers (output : string) : list string :=
  read_buffers (String.length output) output.

(** The locals of the reading loop of [processAudioData]. *)
Record Scan : Type := {
  found_json : bool;
  result : string;
  debug_output : string
}.

Definition scan_start : Scan :=
  {| found_json := false; result := ""; debug_output := "" |}.

Definition newline : string := String "010" EmptyString.

(** The body of the loop, for one buffer. *)
Definition scan_buffer (acc : Scan) (buffer : string) : Scan :=
  let current_line := Str.c_str buffer in
  match Str.find_first_not_of Str.whitespace current_line with
  | None => acc
  | Some start =>
      match Str.find_last_not_of Str.whitespace current_line with
      | None => acc
      | Some last =>
          let current_line :=
            Str.substr start (last - start + 1)%nat current_line in
          match current_line with
          | EmptyString => acc
          | String c _ =>
              if Ascii.eqb c "{" then
                {| found_json := true;
                   result := current_line;
                   debug_output := debug_output acc |}
              else
                {| found_json := found_json acc;
                   result := result acc;
                   debug_output :=
                     debug_output acc +:+ current_line +:+ newline |}
          end
      end
  end.

Definition scan_output (output : string) : Scan :=
  fold_left scan_buffer (pipe_buffers output) scan_start.

(** *** Transcription, stopping, script generation

    These go through [nlohmann::json], which enters as the parameter [L]. *)

Section WithJson.
Variable L : Json.Lib.

(** The [try] block of [processAudioData] that reads the JSON response.
    [None] is undefined behaviour of the library call. *)
Definition read_response (response : Json.json) (st : St)
    : option (string * St) :=
  match Json.bind (Json.index L response "error") (Json.get_string L) with
  | Json.Undefined => None
  | Json.Throws what =>
      Some ("", setError ("Failed to parse transcription result: " +:+ what) st)
  | Json.Got error =>
      if negb (Str.empty error) then Some ("", setError error st)
      else if negb (Json.contains response "text") then
        Some ("", setError "Invalid transcription response" st)
      else
        match Json.bind (Json.index L response "text") (Json.get_string L) with
        | Json.Undefined => None
        | Json.Throws what =>
            Some ("", setError
                        ("Failed to parse transcription result: " +:+ what) st)
        | Json.Got transcription =>
            if Str.empty transcription then
              Some ("", setError "No speech detected" st)
            else
              let st1 := setError "" st in
              Some (transcription,
                    (with_audio_file (_lastAudioPath (fst st1)) false (fst st1),
                     snd st1))
        end
  end.

Definition processAudioData (e : Env) (st : St) : option (string * St) :=
  let h := fst st in
  if Str.empty (_lastAudioPath h) then
    Some ("", setError "No audio file available for processing" st)
  else if negb (popen_ok e) then
    Some ("", setError "Failed to execute Python script" st)
  else
    let sc := scan_output (pipe_output e) in
    if negb (found_json sc) then
      Some ("", setError "Failed to get transcription result" st)
    else if negb (pipe_status e =? 0) then
      Some ("", setError ("Python script failed with status: "
                          +:+ pretty (pipe_status e)) st)
    else
      match Json.parse L (result sc) with
      | inr what =>
          Some ("", setError
                      ("Failed to parse transcription result: " +:+ what) st)
      | inl response => read_response response st
      end.

Definition stopRecording (e : Env) (st : St) : option (bool * St) :=
  let h := fst st in
  let w := snd st in
  if decide (_state h = Recording) then
    let w1 := if _audioDevice h then with_capturing false w else w in
    let st1 := setState Processing (h, w1) in
    let saved := saveAudioToTemp e st1 in
    if negb (fst saved) then
      Some (false, setState Error (setError "Failed to save audio data" (snd saved)))
    else
      match processAudioData e (snd saved) with
      | None => None
      | Some (transcription, st3) =>
          if Str.empty transcription then Some (false, setState Error st3)
          else Some (true, setTranscription e transcription st3)
      end
  else Some (false, setError "Not currently recording" st).

(** [result.erase(0, result.find_first_not_of(ws))] followed by
    [result.erase(result.find_last_not_of(ws) + 1)]. *)
Definition trim_erase (s : string) : string :=
  let s1 :=
    match Str.find_first_not_of Str.whitespace s with
    | None => ""
    | Some i => Str.substr_from i s
    end in
  match Str.find_last_not_of Str.whitespace s1 with
  | None => ""
  | Some j => Str.substr 0 (S j) s1
  end.

(** The [try] block of [generateAndExecuteScript]. *)
Definition read_script (response : Json.json) (st : St) : option St :=
  let failed what :=
    Some (setState Error
            (setError ("Failed to parse script generation result: " +:+ what) st)) in
  match Json.bind (Json.index L response "success") (Json.get_bool L) with
  | Json.Undefined => None
  | Json.Throws what => failed what
  | Json.Got false =>
      match Json.bind (Json.index L response "error") (Json.get_string L) with
      | Json.Undefined => None
      | Json.Throws what => failed what
      | Json.Got error =>
          Some (setState Error
                  (setError ("Script generation failed: " +:+ error) st))
      end
  | Json.Got true =>
      match Json.bind (Json.index L response "script") (Json.get_string L) with
      | Json.Undefined => None
      | Json.Throws what => failed what
      | Json.Got luaScript =>
          if Str.empty luaScript then
            Some (setState Error (setError "Generated script is empty" st))
          else
            let st1 := (fst st, with_script luaScript (snd st)) in
            let st2 := setState Success (setError "" st1) in
            (* the detached thread that will set Idle two seconds later *)
            Some (fst st2, with_idleTimers (S (idleTimers (snd st2))) (snd st2))
      end
  end.

Definition generateAndExecuteScript (e : Env) (transcription : string)
    (st : St) : option St :=
  if Str.empty transcription then Some (setError "Empty transcription" st)
  else
    let st1 := setState GeneratingScript st in
    if negb (popen_ok e) then
      Some (setState Error
              (setError "Failed to execute script generation service" st1))
    else
      let result := Str.c_str (Str.substr 0 4095 (pipe_output e)) in
      if negb (pipe_status e =? 0) then
        Some (setState Error (setError "Script generation failed" st1))
      else
        match Json.parse L (trim_erase result) with
        | inr what =>
            Some (setState Error
                    (setError
                       ("Failed to parse script generation result: " +:+ what)
                       st1))
        | inl response => read_script response st1
        end.


Definition confirmTranscription (e : Env) (st : St) : option (bool * St) :=
  let h := fst st in
  if negb (bool_decide (_state h = Idle)) || Str.empty (_transcription h) then
    Some (false, setError "No transcription available or not in idle state" st)
  else
    match generateAndExecuteScript e (_transcription h) st with
    | None => None
    | Some st' => Some (true, st')
    end.

Definition sendStatusUpdate (e : Env) (status transcription error : string)
    (st : St) : St :=
  let st1 := if negb (Str.empty error) then setError error st else st in
  let st2 :=
    if negb (Str.empty transcription) then setTranscription e transcription st1
    else st1 in
  if String.eqb status "idle" then setState Idle st2
  else if String.eqb status "recording" then setState Recording st2
  else if String.eqb status "processing" then setState Processing st2
  else if String.eqb status "error" then setState Error st2
  else st2.

End WithJson.

End Voice.

(** ** Reading JSON text

    A reader for the JSON that the voice pipeline's processes exchange:
    objects, arrays, strings with the two-character escapes, integer
    numbers and the three literals.  It serves as the instance of
    [Json.Lib] in the worked examples and tells what a JSON consumer finds
    in the text that [PythonIPCHandler::sendMessage] writes.  Escapes of
    the form [\uXXXX] and numbers with a fraction or an exponent are not
    read. *)

Module JsonText.

Import Json.

Definition quote : ascii := "034".
Definition backslash : ascii := "092".

Definition is_ws (c : ascii) : bool :=
  Ascii.eqb c " " || Ascii.eqb c "009" || Ascii.eqb c "010" || Ascii.eqb c "013".

Fixpoint skip_ws (s : string) : string :=
  match s with
  | EmptyString => EmptyString
  | String c r => if is_ws c then skip_ws r else String c r
  end.

(** The character an escape [\c] stands for. *)
Definition unescape (c : ascii) : option ascii :=
  if Ascii.eqb c quote then Some quote
  else if Ascii.eqb c backslash then Some backslash
  else if Ascii.eqb c "/" then Some "/"%char
  else if Ascii.eqb c "b" then Some "008"%char
  else if Ascii.eqb c "f" then Some "012"%char
  else if Ascii.eqb c "n" then Some "010"%char
  else if Ascii.eqb c "r" then Some "013"%char
  else if Ascii.eqb c "t" then Some "009"%char
  else None.

(** A character that may stand unescaped inside a string literal. *)
Definition unescaped (c : ascii) : bool :=
  negb (Ascii.eqb c quote) && negb (Ascii.eqb c backslash)
  && (32 <=? nat_of_ascii c)%nat.

(** The rest of a string literal, after its opening quote: the string it
    denotes and the text after its closing quote. *)
Fixpoint read_chars (s : string) : option (string * string) :=
  match s with
  | EmptyString => None
  | String c r =>
      if Ascii.eqb c quote then Some (EmptyString, r)
      else if Ascii.eqb c backslash then
        match r with
        | EmptyString => None
        | String e r' =>
            match unescape e, read_chars r' with
            | Some c', Some (t, rest) => Some (String c' t, rest)
            | _, _ => None
            end
        end
      else if unescaped c then
        match read_chars r with
        | Some (t, rest) => Some (String c t, rest)
        | None => None
        end
      else None
  end.

Definition digit (c : ascii) : option Z :=
  let n := nat_of_ascii c in
  if ((48 <=? n) && (n <=? 57))%nat then Some (Z.of_nat n - 48) else None.

(** The digits at the front of [s], read onto [acc]. *)
Fixpoint read_digits (acc : Z) (s : string) : Z * string :=
  match s with
  | EmptyString => (acc, EmptyString)
  | String c r =>
      match digit c with
      | Some d => read_digits (10 * acc + d) r
      | None => (acc, String c r)
      end
  end.

Definition ends_number (s : string) : bool :=
  match s with
  | EmptyString => true
  | String c _ =>
      negb (Ascii.eqb c "." || Ascii.eqb c "e" || Ascii.eqb c "E")
  end.

(** An integer without sign: [0], or a non-zero digit and more digits. *)
Definition read_natural (s : string) : option (Z * string) :=
  match s with
  | EmptyString => None
  | String c r =>
      match digit c with
      | None => None
      | Some 0 =>
          match r with
          | EmptyString => Some (0, r)
          | String c' _ =>
              match digit c' with
              | Some _ => None
              | None => if ends_number r then Some (0, r) else None
              end
          end
      | Some d =>
          let nr := read_digits d r in
          if ends_number (snd nr) then Some nr else None
      end
  end.

Definition read_number (s : string) : option (Z * string) :=
  match s with
  | String "-" r =>
      match read_natural r with
      | Some (n, rest) => Some (- n, rest)
      | None => None
      end
  | _ => read_natural s
  end.

(** [strip_prefix p s] is what follows [p] in [s]. *)
Fixpoint strip_prefix (p s : string) : option string :=
  match p with
  | EmptyString => Some s
  | String c p' =>
      match s with
      | EmptyString => None
      | String d s' => if Ascii.eqb c d then strip_prefix p' s' else None
      end
  end.

Fixpoint read_value (fuel : nat) (s : string) : option (json * string) :=
  match fuel with
  | O => None
  | S f =>
      match skip_ws s with
      | EmptyString => None
      | String c r =>
          if Ascii.eqb c "{" then
            match skip_ws r with
            | String "}" r' => Some (JObject [], r')
            | _ =>
                match read_members f r with
                | Some (ms, rest) => Some (JObject ms, rest)
                | None => None
                end
            end
          else if Ascii.eqb c "[" then
            match skip_ws r with
            | String "]" r' => Some (JArray [], r')
            | _ =>
                match read_elements f r with
                | Some (js, rest) => Some (JArray js, rest)
                | None => None
                end
            end
          else if Ascii.eqb c quote then
            match read_chars r with
            | Some (t, rest) => Some (JString t, rest)
            | None => None
            end
          else if Ascii.eqb c "t" then
            option_map (pair (JBool true)) (strip_prefix "rue" r)
          else if Ascii.eqb c "f" then
            option_map (pair (JBool false)) (strip_prefix "alse" r)
          else if Ascii.eqb c "n" then
            option_map (pair JNull) (strip_prefix "ull" r)
          else
            match read_number (String c r) with
            | Some (n, rest) => Some (JNumber n, rest)
            | None => None
            end
      end
  end
with read_members (fuel : nat) (s : string)
    : option (list (string * json) * string) :=
  match fuel with
  | O => None
  | S f =>
      match skip_ws s with
      | String c r =>
          if Ascii.eqb c quote then
            match read_chars r with
            | Some (k, r1) =>
                match skip_ws r1 with
                | String ":" r2 =>
                    match read_value f r2 with
                    | Some (v, r3) =>
                        match skip_ws r3 with
                        | String "," r4 =>
                            match read_members f r4 with
                            | Some (ms, r5) => Some ((k, v) :: ms, r5)
                            | None => None
                            end
                        | String "}" r4 => Some ([(k, v)], r4)
                        | _ => None
                        end
                    | None => None
                    end
                | _ => None
                end
            | None => None
            end
          else None
      | EmptyString => None
      end
  end
with read_elements (fuel : nat) (s : string)
    : option (list json * string) :=
  match fuel with
  | O => None
  | S f =>
      match read_value f s with
      | Some (v, r1) =>
          match skip_ws r1 with
          | String "," r2 =>
              match read_elements f r2 with
              | Some (js, r3) => Some (v :: js, r3)
              | None => None
              end
          | String "]" r2 => Some ([v], r2)
          | _ => None
          end
      | None => None
      end
  end.

(** A whole JSON text: one value, then nothing but white space. *)
Definition read (s : string) : option json :=
  match read_value (S (String.length s)) s with
  | Some (j, rest) =>
      match skip_ws rest with
      | EmptyString => Some j
      | String _ _ => None
      end
  | None => None
  end.

(** The reader as the library the handler calls. *)
Definition lib : Lib := {|
  parse := fun s =>
    match read s with
    | Some j => inl j
    | None => inr "parse error"
    end;
  type_error_what := fun expected _ => "type must be " +:+ expected
|}.

End JsonText.


(** ** The Python IPC handler *)

Module IPC.

(** [IPCMessage::Type] *)
Inductive MessageType : Type :=
| AudioData
| Transcription
| LuaScript
| Error
| Status.

(** [static_cast<int>(message.type)] *)
Definition MessageType_code (t : MessageType) : Z :=
  match t with
  | AudioData => 0
  | Transcription => 1
  | LuaScript => 2
  | Error => 3
  | Status => 4
  end.

Record IPCMessage : Type := {
  type : MessageType;
  data : string;
  metadata : string
}.

Record PythonIPCHandler : Type := {
  _socketFd : Z;
  _running : bool;
  _socketPath : string
}.

(** The handler as its constructor leaves it. *)
Definition constructed : PythonIPCHandler :=
  {| _socketFd := -1; _running := false; _socketPath := "" |}.

Definition isConnected (h : PythonIPCHandler) : bool :=
  negb (_socketFd h =? -1).

Definition quote : string := String "034" EmptyString.

(** The text [fmt::format] builds in [sendMessage]. *)
Definition jsonMsg (message : IPCMessage) : string :=
  "{" +:+ quote +:+ "type" +:+ quote +:+ ":" +:+ quote
  +:+ pretty (MessageType_code (type message)) +:+ quote
  +:+ "," +:+ quote +:+ "data" +:+ quote +:+ ":" +:+ quote
  +:+ data message +:+ quote
  +:+ "," +:+ quote +:+ "metadata" +:+ quote +:+ ":" +:+ quote
  +:+ metadata message +:+ quote +:+ "}".

(** [sendMessage], given what [send] returns.  [socket] lists the buffers
    handed to [send] so far, oldest first. *)
Definition sendMessage (bytesSent : Z) (message : IPCMessage)
    (h : PythonIPCHandler) (socket : list string) : bool * list string :=
  if negb (isConnected h) then (false, socket)
  else (negb (bytesSent =? -1), socket ++ [jsonMsg message]).

Definition sendAudioData (bytesSent : Z) (audioData : string)
    (h : PythonIPCHandler) (socket : list string) : bool * list string :=
  sendMessage bytesSent
    {| type := AudioData; data := audioData; metadata := "" |} h socket.

Definition requestTranscription (bytesSent : Z)
    (h : PythonIPCHandler) (socket : list string) : bool * list string :=
  sendMessage bytesSent
    {| type := Transcription; data := "request"; metadata := "" |} h socket.





End IPC.

(** ** The profile editor's duplicate-name algorithm *)

Module ProfileEdit.

Definition INT_MAX : Z := 2147483647.
Definition INT_MIN : Z := -2147483648.

Inductive stoi_result : Type :=
| Converted (value : Z)
| InvalidArgument
| OutOfRange.

(** [isspace] in the C locale *)
Definition isspace (c : ascii) : bool :=
  Ascii.eqb c " " || ((9 <=? nat_of_ascii c) && (nat_of_ascii c <=? 13))%nat.

Fixpoint skip_space (s : string) : string :=
  match s with
  | EmptyString => EmptyString
  | String c r => if isspace c then skip_space r else String c r
  end.

(** The decimal digits at the front of [s]: their value and how many. *)
Fixpoint digits (acc : Z) (count : nat) (s : string) : Z * nat :=
  match s with
  | EmptyString => (acc, count)
  | String c r =>
      match JsonText.digit c with
      | Some d => digits (10 * acc + d) (S count) r
      | None => (acc, count)
      end
  end.

(** [std::stoi(s)]: leading white space, an optional sign, decimal digits;
    what follows the digits is ignored. *)
Definition stoi (s : string) : stoi_result :=
  let body := skip_space s in
  let signed :=
    match body with
    | String "-" r => (true, r)
    | String "+" r => (false, r)
    | _ => (false, body)
    end in
  let dc := digits 0 0 (snd signed) in
  match snd dc with
  | O => InvalidArgument
  | S _ =>
      let value := if fst signed then - fst dc else fst dc in
      if (INT_MIN <=? value) && (value <=? INT_MAX) then Converted value
      else OutOfRange
  end.

(** The file system: the paths that exist. *)
Definition exists_on_disk (fs : gset string) (path : string) : bool :=
  bool_decide (path ∈ fs).

Definition Separator : string := "_".

Definition candidate (profile : string) (version : Z) : string :=
  profile +:+ Separator +:+ pretty version.

Definition candidatePath (profileBasePath profile : string) (version : Z)
    : string :=
  profileBasePath +:+ candidate profile version +:+ ".profile".

(** The [while (true)] loop, for at most [fuel] rounds; [None] when the
    rounds run out before a free name is found. *)
Fixpoint pick_free (fuel : nat) (fs : gset string)
    (profileBasePath profile : string) (version : Z) : option string :=
  match fuel with
  | O => None
  | S f =>
      let version := Voice.wrap_int (version + 1) in
      if exists_on_disk fs (candidatePath profileBasePath profile version)
      then pick_free f fs profileBasePath profile version
      else Some (candidate profile version)
  end.

(** What a click on the duplicate button does to the name field. *)
Inductive outcome : Type :=
| Unchanged                 (* the field was empty *)
| SetText (text : string)   (* [_profileEdit->setText] *)
| Escapes.                  (* [std::out_of_range] leaves the function *)

(** The suffix handling before the loop: the base name and the version. *)
Definition split_version (profile : string) : option (string * Z) :=
  match Str.rfind "_" profile with
  | Some it =>
      match stoi (Str.substr_from (S it) profile) with
      | Converted version => Some (Str.substr 0 it profile, version)
      | InvalidArgument => Some (profile, 0)
      | OutOfRange => None
      end
  | None => Some (profile, 0)
  end.

Definition duplicateProfile (fuel : nat) (fs : gset string)
    (profileBasePath text : string) : option outcome :=
  if Str.empty text then Some Unchanged
  else
    match split_version text with
    | None => Some Escapes
    | Some (profile, version) =>
        match pick_free fuel fs profileBasePath profile version with
        | Some name => Some (SetText name)
        | None => None
        end
    end.

End ProfileEdit.

(** ** The constructor of [autonavigation::Path] *)

Module Autonavigation.

(** The curve-type selector.  [Unrecognized] stands for any value of the
    enumeration that the constructor's [switch] does not name. *)
Inductive CurveType : Type :=
| AvoidCollision
| Linear
| ZoomOutOverview
| Unrecognized.

Inductive Curve : Type :=
| AvoidCollisionCurve
| LinearCurve
| ZoomOutOverviewCurve.

Inductive RotationInterpolator : Type :=
| EasedSlerpInterpolator
| LookAtInterpolator.

Inductive SpeedFunctionType : Type :=
| DampenedQuintic.

Section PathModel.

(** Waypoints, the length of a curve between two of them, and [std::log]
    come from code outside this file; a [double] is a binary64 float. *)
Variable Waypoint : Type.
Variable curve_length : Curve -> Waypoint -> Waypoint -> PrimFloat.float.
Variable log : PrimFloat.float -> PrimFloat.float.

Record Path : Type := {
  _start : Waypoint;
  _end : Waypoint;
  _curveType : CurveType;
  _curve : Curve;
  _rotationInterpolator : RotationInterpolator;
  _speedFunction : SpeedFunctionType;
  _duration : PrimFloat.float
}.

(** [Path::pathLength] is [_curve->length()]. *)
Definition curve_path_length (c : Curve) (s e : Waypoint) : PrimFloat.float :=
  curve_length c s e.

Definition pathLength (p : Path) : PrimFloat.float :=
  curve_path_length (_curve p) (_start p) (_end p).

Definition duration (p : Path) : PrimFloat.float := _duration p.

(** The [switch] of the constructor; [None] is the thrown
    [ghoul::MissingCaseException]. *)
Definition make_curve (type : CurveType)
    : option (Curve * RotationInterpolator) :=
  match type with
  | AvoidCollision => Some (AvoidCollisionCurve, EasedSlerpInterpolator)
  | Linear => Some (LinearCurve, EasedSlerpInterpolator)
  | ZoomOutOverview => Some (ZoomOutOverviewCurve, LookAtInterpolator)
  | Unrecognized => None
  end.

(** [Path::Path(start, end, type, duration)], where [speedScale] is what
    the navigation handler of the module answers. *)
Definition Path_new (start finish : Waypoint) (type : CurveType)
    (duration : option PrimFloat.float) (speedScale : PrimFloat.float) : option Path :=
  match make_curve type with
  | None => None
  | Some (curve, interpolator) =>
      let d :=
        match duration with
        | Some value => value
        | None =>
            let d0 := log (curve_path_length curve start finish) in
            PrimFloat.div d0 speedScale
        end in
      Some {| _start := start;
              _end := finish;
              _curveType := type;
              _curve := curve;
              _rotationInterpolator := interpolator;
              _speedFunction := DampenedQuintic;
              _duration := d |}
  end.

End PathModel.

End Autonavigation.

(** ** Concrete surroundings for the worked examples *)

Module Examples.

Import Voice.

(** A world with nothing on disk and nothing recorded. *)
Definition quiet : World :=
  {| files := ∅; capturing := false; notified := [];
     scriptQueue := []; idleTimers := 0 |}.

Definition quoted (s : string) : string :=
  String JsonText.quote (s +:+ String JsonText.quote EmptyString).

(** The line a transcription process prints for the text [t]. *)
Definition transcript_line (t : string) : string :=
  "{" +:+ quoted "error" +:+ ": " +:+ quoted "" +:+ ", "
  +:+ quoted "text" +:+ ": " +:+ quoted t +:+ "}".

(** A process that prints a diagnostic line, the transcript of [t] and a
    closing diagnostic, and exits with status 0; every device and file
    operation succeeds. *)
Definition env_hearing (t : string) (remove_fails : bool) : Env :=
  {| device_init_ok := true;
     device_start_ok := true;
     clock_ms := 1700000000000;
     file_open_ok := true;
     file_write_ok := true;
     remove_throws := remove_fails;
     popen_ok := true;
     pipe_output :=
       "Loading model..." +:+ newline
       +:+ "  " +:+ transcript_line t +:+ " " +:+ newline
       +:+ "done" +:+ newline;
     pipe_status := 0 |}.

Definition good_env : Env := env_hearing "fly to mars" false.

(** The handler after [initialize] and one callback registration. *)
Definition ready : VoiceCommandHandler :=
  snd (addStateChangeCallback 7%nat (initialize constructed)).

(** ... and after a first, successful [startRecording]. *)
Definition recording : St := snd (startRecording good_env (ready, quiet)).

End Examples.

(** ** Messages from the WebGUI, and shutting down *)

Module VoiceGui.

Import Voice.

Section WithJson.
Variable L : Json.Lib.

Definition invalid_message (e : Env) (st : St) : St :=
  sendStatusUpdate e "error" "" "Invalid message format" st.

(** [handleWebGuiMessage]; a [json::exception] thrown while the message is
    read lands in the [catch] block.  [None] is undefined behaviour of a
    call into the JSON library further down. *)
Definition handleWebGuiMessage (e : Env) (message : string) (st : St)
    : option St :=
  match Json.parse L message with
  | inr _ => Some (invalid_message e st)
  | inl j =>
      if Json.contains j "action" then
        match Json.bind (Json.index L j "action") (Json.get_string L) with
        | Json.Undefined => None
        | Json.Throws _ => Some (invalid_message e st)
        | Json.Got action =>
            if String.eqb action "toggle_recording" then
              if isRecording (fst st) then
                option_map snd (stopRecording L e st)
              else Some (snd (startRecording e st))
            else if String.eqb action "start_recording" then
              Some (snd (startRecording e st))
            else if String.eqb action "stop_recording" then
              option_map snd (stopRecording L e st)
            else if String.eqb action "confirm_transcription" then
              if bool_decide (_state (fst st) = Idle)
                 && negb (Str.empty (_transcription (fst st)))
              then generateAndExecuteScript L e (_transcription (fst st)) st
              else
                Some (setError
                        "No transcription available or not in idle state" st)
            else Some st
        end
      else Some st
  end.





End WithJson.

(** The keyword for a state in the [state] function of the scripting
    library ([voicecommandhandler_lua.inl]). *)
Definition lua_state_keyword (s : VoiceState) : string :=
  match s with
  | Idle => "idle"
  | Recording => "recording"
  | Processing => "processing"
  | Error => "error"
  | _ => "unknown"
  end.

End VoiceGui.

(** ** The voice command topic *)

Module VoiceTopic.

Import Voice.

(** The keyword for a state in [VoiceCommandTopic::sendStateUpdate]. *)
Definition stateStr (s : VoiceState) : string :=
  match s with
  | Idle => "idle"
  | Recording => "recording"
  | Processing => "processing"
  | Error => "error"
  | _ => "unknown"
  end.

(** The data members of [VoiceCommandTopic] that its source file uses;
    [_voiceHandler] records whether the pointer is non-null. *)
Record VoiceCommandTopic : Type := {
  _voiceHandler : bool;
  _callbackHandle : Z;
  _isSubscribed : bool;
  _isDone : bool
}.

(** The topic, the handler it points to, and the payloads handed to the
    connection so far, oldest first. *)
Definition TopicSt : Type :=
  VoiceCommandTopic * VoiceCommandHandler * list Json.json.

(** The [stateJson] object of [sendStateUpdate]; the members are listed in
    the order of their keys, as the library keeps them. *)
Definition stateJson (h : VoiceCommandHandler) : Json.json :=
  Json.JObject
    [("error", Json.JString (error h));
     ("status", Json.JString (stateStr (state h)));
     ("transcription", Json.JString (transcription h));
     ("type", Json.JString "voice_status")].

Definition sendStateUpdate (ts : TopicSt) : TopicSt :=
  let '(t, h, sent) := ts in
  if _voiceHandler t then (t, h, sent ++ [stateJson h]) else ts.

Section WithCallback.

(** The closure that the topic registers; it calls [sendStateUpdate]. *)
Variable self : Callback.

Definition setupStateChangeCallback (ts : TopicSt) : TopicSt :=
  let '(t, h, sent) := ts in
  if _voiceHandler t then
    let h1 :=
      if _callbackHandle t =? -1 then h
      else removeStateChangeCallback (_callbackHandle t) h in
    let added := addStateChangeCallback self h1 in
    ({| _voiceHandler := _voiceHandler t;
        _callbackHandle := fst added;
        _isSubscribed := _isSubscribed t;
        _isDone := _isDone t |}, snd added, sent)
  else ts.

(** The control events of [handleJson]; [OtherEvent] is any other string. *)
Inductive Event : Type :=
| StartSubscription
| StopSubscription
| RefreshSubscription
| OtherEvent.

Definition handleEvent (ev : Event) (ts : TopicSt) : TopicSt :=
  let '(t, h, sent) := ts in
  match ev with
  | StartSubscription =>
      sendStateUpdate
        (setupStateChangeCallback
           ({| _voiceHandler := _voiceHandler t;
               _callbackHandle := _callbackHandle t;
               _isSubscribed := true;
               _isDone := _isDone t |}, h, sent))
  | StopSubscription =>
      let unregister := _voiceHandler t && negb (_callbackHandle t =? -1) in
      ({| _voiceHandler := _voiceHandler t;
          _callbackHandle := if unregister then -1 else _callbackHandle t;
          _isSubscribed := false;
          _isDone := true |},
       if unregister then removeStateChangeCallback (_callbackHandle t) h
       else h,
       sent)
  | RefreshSubscription => sendStateUpdate ts
  | OtherEvent => ts
  end.

Definition isDone (t : VoiceCommandTopic) : bool := negb (_isSubscribed t).

Fixpoint handleEvents (evs : list Event) (ts : TopicSt) : TopicSt :=
  match evs with
  | [] => ts
  | ev :: rest => handleEvents rest (handleEvent ev ts)
  end.

(** How many subscriptions [evs] start. *)
Fixpoint starts (evs : list Event) : nat :=
  match evs with
  | [] => O
  | StartSubscription :: rest => S (starts rest)
  | _ :: rest => starts rest
  end.

End WithCallback.

End VoiceTopic.

(** ** Notions the statements below are written with *)

Module Notions.

Import Voice.

(** The message of a rejected [confirmTranscription]. *)
Definition confirm_rejection : string :=
  "No transcription available or not in idle state".

(** What every callback run by a transition into [Recording] gets to see
    once error and transcription have been cleared. *)
Definition sees_cleared_recording (entry : Z * Callback) : Notification :=
  {| n_handle := fst entry;
     n_callback := snd entry;
     n_state := Recording;
     n_transcription := "";
     n_error := "" |}.

(** A registration or a removal of a state-change callback. *)
Inductive Registration : Type :=
| Add (callback : Callback)
| Remove (handle : Z).

(** The calls [ops] made on [h], one after the other: the handles that the
    registrations returned, and the handler afterwards. *)
Fixpoint register (ops : list Registration) (h : VoiceCommandHandler)
    : list Z * VoiceCommandHandler :=
  match ops with
  | [] => ([], h)
  | Add callback :: rest =>
      let added := addStateChangeCallback callback h in
      let later := register rest (snd added) in
      (fst added :: fst later, snd later)
  | Remove handle :: rest =>
      register rest (removeStateChangeCallback handle h)
  end.

(** How many registrations [ops] make. *)
Fixpoint adds (ops : list Registration) : nat :=
  match ops with
  | [] => O
  | Add _ :: rest => S (adds rest)
  | Remove _ :: rest => adds rest
  end.

(** The callbacks still registered after [ops], in the order in which they
    were registered, each with the number of its registration counted from
    [next]; [acc] holds the ones registered before. *)
Fixpoint registration_order (next : Z) (acc : list (Z * Callback))
    (ops : list Registration) : list (Z * Callback) :=
  match ops with
  | [] => acc
  | Add callback :: rest =>
      registration_order (next + 1) (acc ++ [(next, callback)]) rest
  | Remove handle :: rest =>
      registration_order next
        (List.filter (fun entry => negb (fst entry =? handle)) acc) rest
  end.

(** A call of [startRecording] or of [stopRecording], with what the call
    finds around it. *)
Inductive Call : Type :=
| CallStart (e : Env)
| CallStop (e : Env).

Section Calls.
Variable L : Json.Lib.

Definition call (c : Call) (st : St) : option St :=
  match c with
  | CallStart e => Some (snd (startRecording e st))
  | CallStop e => option_map snd (stopRecording L e st)
  end.

(** The calls made one after the other; [None] when one of them runs into
    undefined behaviour of the JSON library. *)
Fixpoint run (calls : list Call) (st : St) : option St :=
  match calls with
  | [] => Some st
  | c :: rest =>
      match call c st with
      | Some st' => run rest st'
      | None => None
      end
  end.

End Calls.

(** The file that [saveAudioToTemp] writes when called in [e] on [h]. *)
Definition saved_audio_path (e : Env) (h : VoiceCommandHandler) : string :=
  path_append (_tempDirectory h) (audio_file_name (clock_ms e)).

(** While the handler is [Recording] no transcription is stored. *)
Definition recording_has_no_transcription (st : St) : Prop :=
  _state (fst st) = Recording -> _transcription (fst st) = "".

(** A first session that ends well, and the start of a second one. *)
Definition two_sessions : list Call :=
  [CallStart Examples.good_env; CallStop Examples.good_env;
   CallStart Examples.good_env].

Definition in_second_session : St :=
  match run JsonText.lib two_sessions (Examples.ready, Examples.quiet) with
  | Some st => st
  | None => (Examples.ready, Examples.quiet)
  end.

Definition second_session_over : St :=
  match stopRecording JsonText.lib Examples.good_env in_second_session with
  | Some r => snd r
  | None => in_second_session
  end.

Definition example_audio_path : string :=
  "/tmp/openspace_voice/audio_1700000000000.raw".




(** A profile directory in which version 4 of Earth is taken. *)
Definition profiles_on_disk : gset string :=
  {[ "/profiles/Earth_4.profile"; "/profiles/Mars.profile" ]}.

(** The recording handler once its audio has been saved. *)
Definition saved_recording : St :=
  (with_audio_file example_audio_path false (fst Examples.recording),
   snd Examples.recording).

(** What the transcription step makes of it when the process prints the
    transcript of "fly to mars". *)
Definition heard : string * St :=
  match processAudioData JsonText.lib Examples.good_env saved_recording with
  | Some r => r
  | None => ("", saved_recording)
  end.

(** A [stopRecording] whose subprocess exits with status 1. *)
Definition env_failing : Env :=
  {| device_init_ok := true;
     device_start_ok := true;
     clock_ms := 1700000000000;
     file_open_ok := true;
     file_write_ok := true;
     remove_throws := false;
     popen_ok := true;
     pipe_output := pipe_output Examples.good_env;
     pipe_status := 1 |}.

Definition stop_failed : bool * St :=
  match stopRecording JsonText.lib env_failing Examples.recording with
  | Some r => r
  | None => (false, Examples.recording)
  end.

(** The state is [Error] exactly when an error message is stored. *)
Definition error_marks_Error (st : St) : Prop :=
  _state (fst st) = Error <-> _error (fst st) <> "".

(** A session that fails, then one that is rejected, then one that starts. *)
Definition eventful_calls : list Call :=
  [CallStart Examples.good_env; CallStop env_failing;
   CallStop Examples.good_env; CallStart Examples.good_env;
   CallStart Examples.good_env].

Definition after_eventful_calls : St :=
  match run JsonText.lib eventful_calls (Examples.ready, Examples.quiet) with
  | Some st => st
  | None => (Examples.ready, Examples.quiet)
  end.

(** [s] is made of complete lines: it is empty or ends with a newline. *)
Fixpoint ends_line (s : string) : bool :=
  match s with
  | EmptyString => true
  | String c EmptyString => Ascii.eqb c "010"
  | String _ r => ends_line r
  end.

(** What the reading loop holds after reading first what gave [a] and then
    what gave [b]: a JSON line of the later part replaces one of the
    earlier part, and the diagnostics accumulate. *)
Definition scan_join (a b : Scan) : Scan :=
  {| found_json := found_json a || found_json b;
     result := if found_json b then result b else result a;
     debug_output := debug_output a +:+ debug_output b |}.

Fixpoint has_newline (s : string) : bool :=
  match s with
  | EmptyString => false
  | String c r => Ascii.eqb c "010" || has_newline r
  end.

(** What the reading loop can hold: a retained line starts with an opening
    brace, nothing is retained before a JSON line was found, and what is
    retained fits one buffer. *)
Definition scan_shape (sc : Scan) : Prop :=
  (found_json sc = true -> exists rest : string, result sc = String "{" rest)
  /\ (found_json sc = false -> result sc = "")
  /\ (String.length (result sc) <= 1023)%nat.

(** Two complete lines, the second a transcript, and a later transcript. *)
Definition early_lines : string :=
  "warming up" +:+ newline
  +:+ Examples.transcript_line "first" +:+ newline.

Definition late_lines : string :=
  Examples.transcript_line "second" +:+ newline +:+ "done" +:+ newline.

(** The state that [sendStatusUpdate] sets for a status keyword. *)
Definition keyword_state (status : string) : option VoiceState :=
  if String.eqb status "idle" then Some Idle
  else if String.eqb status "recording" then Some Recording
  else if String.eqb status "processing" then Some Processing
  else if String.eqb status "error" then Some Error
  else None.

(** The published recording indicator agrees with the state. *)
Definition indicator_agrees (st : St) : Prop :=
  _isRecording (fst st) = bool_decide (_state (fst st) = Recording).

(** A process that prints a generated script and exits with status 0. *)
Definition env_scripting : Env :=
  {| device_init_ok := true;
     device_start_ok := true;
     clock_ms := 1700000000000;
     file_open_ok := true;
     file_write_ok := true;
     remove_throws := false;
     popen_ok := true;
     pipe_output :=
       "{" +:+ Examples.quoted "success" +:+ ": true, "
       +:+ Examples.quoted "script" +:+ ": "
       +:+ Examples.quoted "openspace.time.setPause(true)" +:+ "}" +:+ newline;
     pipe_status := 0 |}.

(** The handler of the worked examples with a transcription to confirm. *)
Definition transcribed : St :=
  (with_transcription "pause the time" Examples.ready, Examples.quiet).

Definition confirmed : St :=
  match generateAndExecuteScript JsonText.lib env_scripting
          "pause the time" transcribed with
  | Some st => st
  | None => transcribed
  end.

(** A WebGUI message with the given action. *)
Definition gui_message (action : string) : string :=
  "{" +:+ Examples.quoted "action" +:+ ": " +:+ Examples.quoted action +:+ "}".



(** What [generateAndExecuteScript] parses: the bytes that one [fread] of
    at most 4095 bytes put into the buffer, up to the first zero byte,
    without the white space at either end. *)
Definition script_answer (e : Env) : string :=
  trim_erase (Str.c_str (Str.substr 0 4095 (pipe_output e))).

(** The state after a successful script generation that queued [code]. *)
Definition script_queued (code : string) (st : St) : St :=
  let st1 := setState GeneratingScript st in
  let st2 :=
    setState Success (setError "" (fst st1, with_script code (snd st1))) in
  (fst st2, with_idleTimers (S (idleTimers (snd st2))) (snd st2)).

(** What a topic has registered with the handler: nothing while its handle
    is -1, and otherwise its closure under that handle. *)
Definition registered_by (self : Callback)
    (t : VoiceTopic.VoiceCommandTopic) : list (Z * Callback) :=
  if VoiceTopic._callbackHandle t =? -1 then []
  else [(VoiceTopic._callbackHandle t, self)].

(** How many state snapshots [evs] ask for. *)
Fixpoint snapshots (evs : list VoiceTopic.Event) : nat :=
  match evs with
  | [] => O
  | VoiceTopic.StartSubscription :: rest => S (snapshots rest)
  | VoiceTopic.RefreshSubscription :: rest => S (snapshots rest)
  | _ :: rest => snapshots rest
  end.

(** A topic that has not subscribed yet. *)
Definition fresh_topic : VoiceTopic.VoiceCommandTopic :=
  {| VoiceTopic._voiceHandler := true;
     VoiceTopic._callbackHandle := -1;
     VoiceTopic._isSubscribed := false;
     VoiceTopic._isDone := false |}.

Definition topic_events : list VoiceTopic.Event :=
  [VoiceTopic.StartSubscription; VoiceTopic.RefreshSubscription;
   VoiceTopic.StartSubscription; VoiceTopic.StopSubscription;
   VoiceTopic.OtherEvent; VoiceTopic.StartSubscription].

(** What holds of a topic and its handler between two events, given the
    callbacks [base] that others registered before. *)
Definition topic_invariant (self : Callback) (base : list (Z * Callback))
    (budget : nat) (ts : VoiceTopic.TopicSt) : Prop :=
  let t := fst (fst ts) in
  let h := snd (fst ts) in
  VoiceTopic._voiceHandler t = true
  /\ 0 <= _nextCallbackHandle h
  /\ _nextCallbackHandle h + Z.of_nat budget <= INT_MAX
  /\ _stateChangeCallbacks h = base ++ registered_by self t
  /\ StronglySorted Z.lt (map fst (_stateChangeCallbacks h))
  /\ Forall (fun entry => fst entry < _nextCallbackHandle h)
       (_stateChangeCallbacks h)
  /\ (VoiceTopic._isSubscribed t = true <-> VoiceTopic._callbackHandle t <> -1).

(** The version the duplicate loop tries in its round number [n], counted
    from 1, when it starts from [version]. *)
Fixpoint later_version (n : nat) (version : Z) : Z :=
  match n with
  | O => version
  | S m => later_version m (wrap_int (version + 1))
  end.


End Notions.

Import Notions.

(** * Properties *)

(** ** State, error and transcription setters *)

Section VoiceSetters.

Import Voice.

Lemma Str_empty_true (s : string) : Str.empty s = true <-> s = "".
Proof. destruct s; simpl; split; congruence. Qed.

Lemma Str_empty_false (s : string) : Str.empty s = false <-> s <> "".
Proof. destruct s; simpl; split; congruence. Qed.

Lemma setState_same (h : VoiceCommandHandler) (w : World) :
  setState (_state h) (h, w) = (h, w).
Proof. unfold setState; simpl. destruct (decide _); congruence. Qed.

Lemma setState_changed (s : VoiceState) (h : VoiceCommandHandler) (w : World) :
  _state h <> s ->
  setState s (h, w) =
    (with_state s h,
     with_notified
       (notified w
        ++ map (run_callback (with_state s h)) (_stateChangeCallbacks h)) w).
Proof. intros Hne. unfold setState; simpl. destruct (decide _); congruence. Qed.

Lemma setState_state (s : VoiceState) (st : St) :
  _state (fst (setState s st)) = s.
Proof.
  destruct st as [h w]. unfold setState; simpl.
  destruct (decide _); simpl; congruence.
Qed.

(** [setState] touches nothing of the handler but the state and the
    recording indicator. *)
Lemma setState_fields (s : VoiceState) (st : St) :
  _error (fst (setState s st)) = _error (fst st)
  /\ _transcription (fst (setState s st)) = _transcription (fst st)
  /\ _lastAudioPath (fst (setState s st)) = _lastAudioPath (fst st)
  /\ _tempDirectory (fst (setState s st)) = _tempDirectory (fst st)
  /\ _stateChangeCallbacks (fst (setState s st)) = _stateChangeCallbacks (fst st)
  /\ _nextCallbackHandle (fst (setState s st)) = _nextCallbackHandle (fst st)
  /\ files (snd (setState s st)) = files (snd st).
Proof.
  destruct st as [h w]. unfold setState; simpl.
  destruct (decide _); simpl; repeat split; reflexivity.
Qed.

Lemma setError_same (h : VoiceCommandHandler) (w : World) :
  setError (_error h) (h, w) = (h, w).
Proof. unfold setError; simpl. destruct (decide _); congruence. Qed.

Lemma setError_empty (st : St) :
  _error (fst (setError "" st)) = ""
  /\ _state (fst (setError "" st)) = _state (fst st)
  /\ _transcription (fst (setError "" st)) = _transcription (fst st)
  /\ _lastAudioPath (fst (setError "" st)) = _lastAudioPath (fst st)
  /\ _tempDirectory (fst (setError "" st)) = _tempDirectory (fst st)
  /\ _stateChangeCallbacks (fst (setError "" st)) = _stateChangeCallbacks (fst st)
  /\ snd (setError "" st) = snd st.
Proof.
  destruct st as [h w]. unfold setError; simpl.
  destruct (decide _) as [He|He]; simpl; repeat split; auto.
Qed.

Lemma setError_error (e : string) (st : St) :
  _error (fst (setError e st)) = e.
Proof.
  destruct st as [h w]. unfold setError; simpl.
  destruct (decide _) as [He|He]; simpl; [exact He|].
  destruct (Str.empty e); simpl; [reflexivity|].
  destruct (setState_fields Error (with_error e h, w)) as [H _]. exact H.
Qed.

Lemma setError_state (e : string) (st : St) :
  _state (fst (setError e st)) =
    if decide (_error (fst st) = e) then _state (fst st)
    else if Str.empty e then _state (fst st) else Error.
Proof.
  destruct st as [h w]. unfold setError; simpl.
  destruct (decide _) as [He|He]; simpl; [reflexivity|].
  destruct (Str.empty e); simpl; [reflexivity|].
  apply setState_state.
Qed.

Lemma setError_fields (e : string) (st : St) :
  _transcription (fst (setError e st)) = _transcription (fst st)
  /\ _lastAudioPath (fst (setError e st)) = _lastAudioPath (fst st)
  /\ _tempDirectory (fst (setError e st)) = _tempDirectory (fst st)
  /\ _stateChangeCallbacks (fst (setError e st)) = _stateChangeCallbacks (fst st)
  /\ _nextCallbackHandle (fst (setError e st)) = _nextCallbackHandle (fst st)
  /\ files (snd (setError e st)) = files (snd st).
Proof.
  destruct st as [h w]. unfold setError; simpl.
  destruct (decide _) as [He|He]; simpl; [repeat split; reflexivity|].
  destruct (Str.empty e); simpl; [repeat split; reflexivity|].
  destruct (setState_fields Error (with_error e h, w))
    as (_ & H1 & H2 & H3 & H4 & H5 & H6).
  repeat split; assumption.
Qed.

End VoiceSetters.

(** ** Rejected calls and the error field *)

Section VoiceRejections.

Import Voice.

(** C10.  Calling [setError e] while the stored error already equals [e]
    changes nothing at all: neither the error, nor the state, nor the list
    of callback runs.  A non-empty message that differs from the stored
    one is stored and forces the state to [Error]. *)
Theorem setError_same_message_changes_nothing
    (e : string) (h : VoiceCommandHandler) (w : World) :
  _error h = e ->
  setError e (h, w) = (h, w)
  /\ (forall e' : string, e' <> e -> e' <> "" ->
        _error (fst (setError e' (h, w))) = e'
        /\ _state (fst (setError e' (h, w))) = Error).
Proof.
  intros He. split.
  - subst e. apply setError_same.
  - intros e' Hne Hnonempty. split; [apply setError_error|].
    rewrite setError_state; simpl.
    destruct (decide (_error h = e')) as [Heq|_]; [congruence|].
    apply Str_empty_false in Hnonempty. now rewrite Hnonempty.
Qed.

Lemma setError_same_message_changes_nothing_witness :
  setError "Already recording"
    (with_error "Already recording" (fst Examples.recording), Examples.quiet)
  = (with_error "Already recording" (fst Examples.recording), Examples.quiet)
  /\ _state (fst (setError "Not currently recording"
                    (with_error "Already recording" (fst Examples.recording),
                     Examples.quiet))) = Error.
Proof.
  destruct (setError_same_message_changes_nothing "Already recording"
              (with_error "Already recording" (fst Examples.recording))
              Examples.quiet eq_refl) as [Hsame Hother].
  split; [exact Hsame|].
  apply (Hother "Not currently recording"); discriminate.
Defined.

(** C1, as the code has it.  [startRecording] while [Recording] returns
    false and stores the error "Already recording"; the state stays
    [Recording] only when that very message was already stored, and is
    [Error] otherwise. *)
Theorem startRecording_while_recording
    (e : Env) (h : VoiceCommandHandler) (w : World) :
  _state h = Recording ->
  fst (startRecording e (h, w)) = false
  /\ _error (fst (snd (startRecording e (h, w)))) = "Already recording"
  /\ _state (fst (snd (startRecording e (h, w)))) =
       (if decide (_error h = "Already recording") then Recording else Error).
Proof.
  intros Hrec. unfold startRecording; simpl.
  destruct (decide (_state h = Recording)) as [_|Hne]; [|congruence].
  simpl. split; [reflexivity|]. split; [apply setError_error|].
  rewrite setError_state; simpl.
  destruct (decide _); [exact Hrec|reflexivity].
Qed.

Lemma startRecording_while_recording_witness :
  fst (startRecording Examples.good_env Examples.recording) = false
  /\ _error (fst (snd (startRecording Examples.good_env Examples.recording)))
     = "Already recording"
  /\ _state (fst (snd (startRecording Examples.good_env Examples.recording)))
     = Error.
Proof.
  exact (startRecording_while_recording Examples.good_env
           (fst Examples.recording) (snd Examples.recording) eq_refl).
Defined.

(** C1 as the specification words it fails: after one successful
    [startRecording] the handler is [Recording] with no error, and a second
    [startRecording] leaves it in [Error], not in [Recording]. *)
Lemma startRecording_while_recording_counterexample :
  fst (startRecording Examples.good_env (Examples.ready, Examples.quiet)) = true
  /\ _state (fst Examples.recording) = Recording
  /\ fst (startRecording Examples.good_env Examples.recording) = false
  /\ _state (fst (snd (startRecording Examples.good_env Examples.recording)))
     <> Recording.
Proof. vm_compute. repeat split; discriminate. Qed.

End VoiceRejections.

Section VoiceConfirm.

Import Voice.

Variable L : Json.Lib.

(** C2, as the code has it.  [confirmTranscription] while the state is not
    [Idle], or while no transcription is stored, returns false and stores
    its error message; the state is untouched only when that very message
    was already stored, and is [Error] otherwise. *)
Theorem confirmTranscription_rejected
    (e : Env) (h : VoiceCommandHandler) (w : World) :
  _state h <> Idle \/ _transcription h = "" ->
  exists st' : St,
    confirmTranscription L e (h, w) = Some (false, st')
    /\ _error (fst st') = confirm_rejection
    /\ _transcription (fst st') = _transcription h
    /\ _state (fst st') =
         (if decide (_error h = confirm_rejection) then _state h else Error).
Proof.
  intros Hguard.
  exists (setError confirm_rejection (h, w)).
  split.
  - unfold confirmTranscription; simpl.
    destruct Hguard as [Hstate|Hempty].
    + rewrite bool_decide_eq_false_2 by exact Hstate. reflexivity.
    + rewrite Hempty. simpl. rewrite orb_true_r. reflexivity.
  - split; [apply setError_error|]. split.
    + apply (setError_fields confirm_rejection (h, w)).
    + rewrite setError_state; simpl.
      destruct (decide _); reflexivity.
Qed.

End VoiceConfirm.

Lemma confirmTranscription_rejected_witness :
  exists st' : Voice.St,
    Voice.confirmTranscription JsonText.lib Examples.good_env
      (Examples.ready, Examples.quiet) = Some (false, st')
    /\ Voice._error (fst st') = confirm_rejection
    /\ Voice._transcription (fst st') = ""
    /\ Voice._state (fst st') = Voice.Error.
Proof.
  exact (confirmTranscription_rejected JsonText.lib Examples.good_env
           Examples.ready Examples.quiet (or_intror eq_refl)).
Defined.

(** C2 as the specification words it fails: on the idle handler with no
    transcription the call returns false and the state is no longer
    [Idle]. *)
Lemma confirmTranscription_rejected_counterexample :
  Voice._state Examples.ready = Voice.Idle
  /\ Voice._transcription Examples.ready = ""
  /\ option_map fst
       (Voice.confirmTranscription JsonText.lib Examples.good_env
          (Examples.ready, Examples.quiet)) = Some false
  /\ option_map (fun r => Voice._state (fst (snd r)))
       (Voice.confirmTranscription JsonText.lib Examples.good_env
          (Examples.ready, Examples.quiet)) = Some Voice.Error.
Proof. vm_compute. repeat split. Qed.

Section VoiceStart.

Import Voice.

Lemma setTranscription_empty (e : Env) (st : St) :
  _transcription (fst (setTranscription e "" st)) = ""
  /\ _error (fst (setTranscription e "" st)) = _error (fst st)
  /\ _state (fst (setTranscription e "" st)) = _state (fst st)
  /\ _lastAudioPath (fst (setTranscription e "" st)) = _lastAudioPath (fst st)
  /\ _tempDirectory (fst (setTranscription e "" st)) = _tempDirectory (fst st)
  /\ _stateChangeCallbacks (fst (setTranscription e "" st))
     = _stateChangeCallbacks (fst st)
  /\ snd (setTranscription e "" st) = snd st.
Proof.
  destruct st as [h w]. unfold setTranscription; simpl.
  destruct (decide _) as [Ht|Ht]; simpl; repeat split; auto.
Qed.

(** C9.  With a capture device that initialises (when there is none yet)
    and starts, [startRecording] succeeds exactly from the states other
    than [Recording]; it then leaves error and transcription empty and the
    state [Recording], and each registered callback runs once, seeing the
    cleared fields together with the new state. *)
Theorem startRecording_rejects_only_recording
    (e : Env) (h : VoiceCommandHandler) (w : World) :
  (_audioDevice h = false -> device_init_ok e = true) ->
  device_start_ok e = true ->
  (fst (startRecording e (h, w)) = true <-> _state h <> Recording)
  /\ (_state h <> Recording ->
        _error (fst (snd (startRecording e (h, w)))) = ""
        /\ _transcription (fst (snd (startRecording e (h, w)))) = ""
        /\ _state (fst (snd (startRecording e (h, w)))) = Recording
        /\ notified (snd (snd (startRecording e (h, w)))) =
             notified w
             ++ map sees_cleared_recording (_stateChangeCallbacks h)).
Proof.
  intros Hinit Hstart.
  assert (Hdev : negb (_audioDevice h) && negb (device_init_ok e) = false).
  { destruct (_audioDevice h); [reflexivity|]. now rewrite Hinit. }
  unfold startRecording; simpl.
  destruct (decide (_state h = Recording)) as [Hrec|Hne].
  - split; [|congruence]. simpl. split; [discriminate|congruence].
  - rewrite Hdev, Hstart. simpl.
    split; [split; auto|]. intros _.
    set (st1 := (with_audio true [] h, with_capturing true w)).
    destruct (setError_empty st1) as (E1 & E2 & E3 & _ & _ & E6 & E7).
    destruct (setTranscription_empty e (setError "" st1))
      as (T1 & T2 & T3 & _ & _ & T6 & T7).
    set (st3 := setTranscription e "" (setError "" st1)) in *.
    assert (Hst3 : _state (fst st3) <> Recording).
    { rewrite T3, E2. exact Hne. }
    destruct st3 as [h3 w3] eqn:Est3. simpl in *.
    rewrite (setState_changed Recording h3 w3 Hst3). simpl.
    repeat split; try congruence.
    rewrite T7, E7, T6, E6. simpl. f_equal.
    apply map_ext. intros [k cb].
    unfold run_callback, sees_cleared_recording; simpl.
    now rewrite T1, T2, E1.
Qed.

End VoiceStart.

Lemma startRecording_rejects_only_recording_witness :
  (fst (Voice.startRecording Examples.good_env (Examples.ready, Examples.quiet))
   = true <-> Voice._state Examples.ready <> Voice.Recording)
  /\ (Voice._state Examples.ready <> Voice.Recording ->
      Voice._error (fst Examples.recording) = ""
      /\ Voice._transcription (fst Examples.recording) = ""
      /\ Voice._state (fst Examples.recording) = Voice.Recording
      /\ Voice.notified (snd Examples.recording) =
           [sees_cleared_recording (0, 7%nat)]).
Proof.
  exact (startRecording_rejects_only_recording Examples.good_env
           Examples.ready Examples.quiet (fun _ => eq_refl) eq_refl).
Defined.

(** ** Callback registration and notification *)

Section VoiceCallbacks.

Import Voice.

Lemma wrap_int_small (z : Z) :
  - 2 ^ 31 <= z < 2 ^ 31 -> wrap_int z = z.
Proof.
  intros Hz. unfold wrap_int.
  rewrite Z.mod_small by lia. lia.
Qed.

Lemma callbacks_assign_largest (k : Z) (v : Callback) (m : list (Z * Callback)) :
  Forall (fun entry => fst entry < k) m ->
  callbacks_assign k v m = m ++ [(k, v)].
Proof.
  induction 1 as [|[k' v'] m Hk _ IH]; simpl; [reflexivity|].
  simpl in Hk.
  destruct (Z.ltb_spec k k'); [lia|].
  destruct (Z.eqb_spec k k'); [lia|].
  now rewrite IH.
Qed.

Lemma Forall_keys (P : Z -> Prop) (m : list (Z * Callback)) :
  Forall P (map fst m) <-> Forall (fun entry => P (fst entry)) m.
Proof.
  induction m as [|x m IH]; simpl; split; intros H; try constructor;
    inversion H; subst; auto; apply IH; assumption.
Qed.

Lemma filter_keeps_larger (k : Z) (m : list (Z * Callback)) :
  Forall (fun entry => k < fst entry) m ->
  List.filter (fun entry => negb (fst entry =? k)) m = m.
Proof.
  induction 1 as [|[k' v'] m Hk _ IH]; simpl; [reflexivity|].
  simpl in Hk. destruct (Z.eqb_spec k' k); [lia|]. simpl. now rewrite IH.
Qed.

Lemma callbacks_erase_sorted (k : Z) (m : list (Z * Callback)) :
  StronglySorted Z.lt (map fst m) ->
  callbacks_erase k m = List.filter (fun entry => negb (fst entry =? k)) m.
Proof.
  induction m as [|[k' v'] m IH]; simpl; [reflexivity|].
  intros Hs. apply StronglySorted_inv in Hs as [Hs Hall].
  destruct (Z.eqb_spec k k') as [->|Hne].
  - rewrite Z.eqb_refl. simpl. symmetry. apply filter_keeps_larger.
    apply Forall_keys in Hall. exact Hall.
  - destruct (Z.eqb_spec k' k); [congruence|]. simpl. now rewrite IH.
Qed.

Lemma sorted_snoc (k : Z) (l : list Z) :
  StronglySorted Z.lt l -> Forall (fun x => x < k) l ->
  StronglySorted Z.lt (l ++ [k]).
Proof.
  induction 1 as [|x l Hs IH Hx]; intros Hall; simpl.
  - repeat constructor.
  - apply Forall_cons_1 in Hall as [Hxk Hall].
    constructor; [auto|].
    apply Forall_app. split; [exact Hx|]. repeat constructor. exact Hxk.
Qed.

Lemma sorted_filter (f : Z * Callback -> bool) (m : list (Z * Callback)) :
  StronglySorted Z.lt (map fst m) ->
  StronglySorted Z.lt (map fst (List.filter f m)).
Proof.
  induction m as [|x m IH]; simpl; [auto|].
  intros Hs. apply StronglySorted_inv in Hs as [Hs Hall].
  destruct (f x); simpl; [|auto].
  constructor; [auto|].
  apply Forall_keys. apply Forall_keys in Hall.
  rewrite List.Forall_forall in *. intros y Hy.
  apply Hall. apply filter_In in Hy. tauto.
Qed.

(** The invariant of the callback map under registrations and removals
    that stay clear of the overflow of the handle counter. *)
Lemma register_invariant (ops : list Registration) :
  forall h : VoiceCommandHandler,
    0 <= _nextCallbackHandle h ->
    _nextCallbackHandle h + Z.of_nat (adds ops) <= INT_MAX ->
    StronglySorted Z.lt (map fst (_stateChangeCallbacks h)) ->
    Forall (fun entry => fst entry < _nextCallbackHandle h)
      (_stateChangeCallbacks h) ->
    fst (register ops h) =
      map (fun i => _nextCallbackHandle h + Z.of_nat i) (seq 0 (adds ops))
    /\ _stateChangeCallbacks (snd (register ops h)) =
         registration_order (_nextCallbackHandle h)
           (_stateChangeCallbacks h) ops
    /\ StronglySorted Z.lt
         (map fst (_stateChangeCallbacks (snd (register ops h))))
    /\ _state (snd (register ops h)) = _state h
    /\ _transcription (snd (register ops h)) = _transcription h
    /\ _error (snd (register ops h)) = _error h.
Proof.
  induction ops as [|[cb|k] ops IH]; intros h Hpos Hmax Hsorted Hbelow.
  - simpl. repeat split; auto.
  - simpl in Hmax. unfold INT_MAX in *.
    assert (Hwrap : wrap_int (_nextCallbackHandle h + 1)
                    = _nextCallbackHandle h + 1).
    { apply wrap_int_small. lia. }
    assert (Hassign : callbacks_assign (_nextCallbackHandle h) cb
                        (_stateChangeCallbacks h)
                      = _stateChangeCallbacks h ++ [(_nextCallbackHandle h, cb)]).
    { apply callbacks_assign_largest. exact Hbelow. }
    specialize (IH (snd (addStateChangeCallback cb h))).
    simpl in IH. rewrite Hwrap, Hassign in IH.
    destruct IH as (I1 & I2 & I3 & I4 & I5 & I6).
    + lia.
    + lia.
    + rewrite map_app. simpl. apply sorted_snoc; [exact Hsorted|].
      apply Forall_keys. exact Hbelow.
    + apply Forall_app. split.
      * eapply List.Forall_impl; [|exact Hbelow]. simpl. intros; lia.
      * repeat constructor. simpl. lia.
    + simpl. rewrite Hwrap, Hassign.
      repeat split; auto.
      rewrite I1. f_equal; [f_equal; lia|].
      rewrite <- seq_shift, map_map.
      apply map_ext. intros i. lia.
  - simpl in Hmax.
    specialize (IH (removeStateChangeCallback k h)).
    simpl in IH. rewrite (callbacks_erase_sorted k _ Hsorted) in IH.
    destruct IH as (I1 & I2 & I3 & I4 & I5 & I6).
    + exact Hpos.
    + exact Hmax.
    + apply sorted_filter. exact Hsorted.
    + rewrite List.Forall_forall in *. intros x Hx. apply Hbelow.
      apply filter_In in Hx. tauto.
    + simpl. repeat split; auto.
Qed.

(** C8.  On a handler whose handle counter is still 0, the registrations
    made by any run of registrations and removals return the handles
    0, 1, 2, ... in turn (as long as there are no more than [INT_MAX] of
    them).  Afterwards [setState] with the stored state changes nothing and
    runs no callback, and [setState] with another state runs every callback
    still registered exactly once, in the order of registration, which is
    the ascending order of the handles. *)
Theorem callbacks_run_once_in_registration_order
    (ops : list Registration) (h0 : VoiceCommandHandler) (w : World)
    (s : VoiceState) :
  _nextCallbackHandle h0 = 0 ->
  _stateChangeCallbacks h0 = [] ->
  Z.of_nat (adds ops) <= INT_MAX ->
  fst (register ops h0) = map Z.of_nat (seq 0 (adds ops))
  /\ setState (_state (snd (register ops h0))) (snd (register ops h0), w)
     = (snd (register ops h0), w)
  /\ (_state (snd (register ops h0)) <> s ->
      setState s (snd (register ops h0), w) =
        (with_state s (snd (register ops h0)),
         with_notified
           (notified w
            ++ map (run_callback (with_state s (snd (register ops h0))))
                 (registration_order 0 [] ops)) w))
  /\ StronglySorted Z.lt (map fst (registration_order 0 [] ops)).
Proof.
  intros Hnext Hcbs Hmax.
  destruct (register_invariant ops h0) as (I1 & I2 & I3 & _).
  - lia.
  - lia.
  - rewrite Hcbs. constructor.
  - rewrite Hcbs. constructor.
  - rewrite Hnext, Hcbs in *.
    split; [rewrite I1; apply map_ext; intros; lia|].
    split; [apply setState_same|].
    split.
    + intros Hne. rewrite (setState_changed s _ w Hne). now rewrite I2.
    + now rewrite <- I2.
Qed.

End VoiceCallbacks.

Lemma callbacks_run_once_in_registration_order_witness :
  fst (register [Add 7%nat; Add 8%nat; Remove 0; Add 9%nat] Voice.constructed)
  = [0; 1; 2]
  /\ Voice.notified
       (snd (Voice.setState Voice.Recording
               (snd (register [Add 7%nat; Add 8%nat; Remove 0; Add 9%nat]
                       Voice.constructed), Examples.quiet)))
     = [sees_cleared_recording (1, 8%nat); sees_cleared_recording (2, 9%nat)].
Proof.
  destruct (callbacks_run_once_in_registration_order
              [Add 7%nat; Add 8%nat; Remove 0; Add 9%nat]
              Voice.constructed Examples.quiet Voice.Recording
              eq_refl eq_refl)
    as (Hhandles & _ & Hrun & _).
  - vm_compute. discriminate.
  - split; [exact Hhandles|].
    rewrite Hrun; [reflexivity|discriminate].
Defined.

(** ** Sequences of [startRecording] and [stopRecording] *)

Section VoiceSessions.

Import Voice.

Variable L : Json.Lib.

Lemma append_nonempty_l (a b : string) : a <> "" -> a +:+ b <> "".
Proof. destruct a as [|c a]; [congruence|]. intros _ H. discriminate H. Qed.

Lemma saved_audio_path_nonempty (e : Env) (h : VoiceCommandHandler) :
  saved_audio_path e h <> "".
Proof.
  unfold saved_audio_path, path_append.
  destruct (Str.empty (_tempDirectory h)) eqn:Hdir.
  - unfold audio_file_name. discriminate.
  - apply Str_empty_false in Hdir.
    destruct (Str.find_last_not_of "/" (_tempDirectory h)) as [i|];
      [destruct (_ =? _)%nat|]; apply append_nonempty_l; exact Hdir.
Qed.

Lemma setTranscription_state_fields (e : Env) (t : string) (st : St) :
  _error (fst (setTranscription e t st)) = _error (fst st)
  /\ _tempDirectory (fst (setTranscription e t st)) = _tempDirectory (fst st)
  /\ _stateChangeCallbacks (fst (setTranscription e t st))
     = _stateChangeCallbacks (fst st).
Proof.
  destruct st as [h w]. unfold setTranscription; simpl.
  destruct (decide _); simpl; [repeat split; reflexivity|].
  destruct (Str.empty t); simpl; [repeat split; reflexivity|].
  destruct (setState_fields Idle
              (cleanupAudioFile e (with_transcription t h, w)))
    as (H1 & _ & _ & H4 & H5 & _).
  rewrite H1, H4, H5. unfold cleanupAudioFile; simpl.
  destruct (Str.empty (_lastAudioPath h)); simpl; [repeat split; reflexivity|].
  destruct (remove_throws e); simpl; repeat split; reflexivity.
Qed.

(** A non-empty result of the transcription step comes from its last
    branch only: the error is cleared, the retry flag is reset, and nothing
    else changes. *)
Lemma processAudioData_success (e : Env) (st st' : St) (t : string) :
  processAudioData L e st = Some (t, st') ->
  t <> "" ->
  _lastAudioPath (fst st) <> ""
  /\ st' = (with_audio_file (_lastAudioPath (fst (setError "" st))) false
              (fst (setError "" st)),
            snd (setError "" st)).
Proof.
  unfold processAudioData, read_response.
  destruct (Str.empty (_lastAudioPath (fst st))) eqn:Hpath;
    [intros [= <- _] Habs; now elim Habs|].
  apply Str_empty_false in Hpath.
  destruct (negb (popen_ok e)); [intros [= <- _] Habs; now elim Habs|].
  destruct (negb (found_json _)); [intros [= <- _] Habs; now elim Habs|].
  destruct (negb (pipe_status e =? 0)); [intros [= <- _] Habs; now elim Habs|].
  destruct (Json.parse L _) as [response|what];
    [|intros [= <- _] Habs; now elim Habs].
  destruct (Json.bind (Json.index L response "error") _) as [err|what|];
    [|intros [= <- _] Habs; now elim Habs|discriminate].
  destruct (negb (Str.empty err)); [intros [= <- _] Habs; now elim Habs|].
  destruct (negb (Json.contains response "text"));
    [intros [= <- _] Habs; now elim Habs|].
  destruct (Json.bind (Json.index L response "text") _) as [txt|what|];
    [|intros [= <- _] Habs; now elim Habs|discriminate].
  destruct (Str.empty txt); [intros [= <- _] Habs; now elim Habs|].
  intros [= <- <-] _. split; [exact Hpath|reflexivity].
Qed.

Lemma setError_keeps_invariant (msg : string) (st : St) :
  recording_has_no_transcription st ->
  recording_has_no_transcription (setError msg st).
Proof.
  unfold recording_has_no_transcription. intros Hinv.
  destruct (setError_fields msg st) as (Ht & _).
  rewrite Ht, setError_state.
  destruct (decide _); [exact Hinv|].
  destruct (Str.empty msg); [exact Hinv|discriminate].
Qed.

Lemma startRecording_keeps_invariant (e : Env) (st : St) :
  recording_has_no_transcription st ->
  recording_has_no_transcription (snd (startRecording e st)).
Proof.
  intros Hinv. destruct st as [h w]. unfold startRecording; simpl.
  destruct (decide (_state h = Recording)); simpl;
    [apply setError_keeps_invariant; exact Hinv|].
  destruct (negb (_audioDevice h) && negb (device_init_ok e)); simpl;
    [apply setError_keeps_invariant; exact Hinv|].
  destruct (negb (device_start_ok e)); simpl;
    [apply setError_keeps_invariant; exact Hinv|].
  intros _.
  destruct (setState_fields Recording
              (setTranscription e ""
                 (setError "" (with_audio true [] h, with_capturing true w))))
    as (_ & Ht & _).
  rewrite Ht. apply setTranscription_empty.
Qed.

Lemma stopRecording_leaves_recording (e : Env) (st : St) (r : bool * St) :
  stopRecording L e st = Some r ->
  _state (fst (snd r)) <> Recording.
Proof.
  destruct st as [h w]. unfold stopRecording; simpl.
  destruct (decide (_state h = Recording)) as [Hrec|Hne].
  - set (w1 := if _audioDevice h then with_capturing false w else w).
    set (st1 := setState Processing (h, w1)).
    assert (Hst1 : _state (fst st1) = Processing) by apply setState_state.
    unfold saveAudioToTemp.
    destruct (negb (file_open_ok e)); simpl.
    { intros [= <-]. simpl. rewrite setState_state. discriminate. }
    destruct (negb (file_write_ok e)); simpl.
    { intros [= <-]. simpl. rewrite setState_state. discriminate. }
    set (st2 := (with_audio_file _ _ (fst st1), _)).
    destruct (processAudioData L e st2) as [[t st3]|] eqn:Hproc;
      [|discriminate].
    destruct (Str.empty t) eqn:Ht.
    { intros [= <-]. simpl. rewrite setState_state. discriminate. }
    intros [= <-]. simpl.
    apply Str_empty_false in Ht.
    destruct (processAudioData_success e st2 st3 t Hproc Ht) as [_ ->].
    destruct (setError_empty st2) as (_ & E2 & _).
    unfold setTranscription; simpl.
    destruct (decide _); simpl.
    + rewrite E2. simpl. rewrite Hst1. discriminate.
    + apply Str_empty_false in Ht. rewrite Ht.
      rewrite setState_state. discriminate.
  - intros [= <-]. simpl. rewrite setError_state; simpl.
    destruct (decide _); [exact Hne|]. simpl. discriminate.
Qed.

Lemma run_keeps_invariant (calls : list Call) :
  forall st st' : St,
    recording_has_no_transcription st ->
    run L calls st = Some st' ->
    recording_has_no_transcription st'.
Proof.
  induction calls as [|c calls IH]; intros st st' Hinv; simpl.
  - intros [= <-]. exact Hinv.
  - destruct c as [e|e]; simpl.
    + apply IH. apply startRecording_keeps_invariant. exact Hinv.
    + destruct (stopRecording L e st) as [r|] eqn:Hstop; simpl; [|discriminate].
      apply IH. intros Hrec.
      now apply (stopRecording_leaves_recording e st r) in Hrec.
Qed.

End VoiceSessions.

Section VoiceSessionEnd.

Import Voice.

Variable L : Json.Lib.

(** What a [stopRecording] that returns true leaves behind, whatever state
    it started from with no transcription stored. *)
Lemma stopRecording_true (e : Env) (h : VoiceCommandHandler) (w : World)
    (st' : St) :
  _transcription h = "" ->
  stopRecording L e (h, w) = Some (true, st') ->
  _state (fst st') = Idle
  /\ _transcription (fst st') <> ""
  /\ (remove_throws e = false ->
      _lastAudioPath (fst st') = ""
      /\ saved_audio_path e h ∉ files (snd st'))
  /\ (remove_throws e = true ->
      _lastAudioPath (fst st') = saved_audio_path e h
      /\ saved_audio_path e h ∈ files (snd st')).
Proof.
  intros Hnone. unfold stopRecording; simpl.
  destruct (decide (_state h = Recording)) as [Hrec|Hne]; [|discriminate].
  set (w1 := if _audioDevice h then with_capturing false w else w).
  assert (Hproc : _state h <> Processing) by (rewrite Hrec; discriminate).
  rewrite (setState_changed Processing h w1 Hproc).
  unfold saveAudioToTemp; simpl.
  destruct (negb (file_open_ok e)); simpl; [discriminate|].
  destruct (negb (file_write_ok e)); simpl; [discriminate|].
  fold (saved_audio_path e h).
  set (st2 := (with_audio_file (saved_audio_path e h) _ _, _)).
  destruct (processAudioData L e st2) as [[t st3]|] eqn:Hp; [|discriminate].
  destruct (Str.empty t) eqn:Ht; [discriminate|].
  intros [= <-].
  apply Str_empty_false in Ht.
  destruct (processAudioData_success L e st2 st3 t Hp Ht) as [_ ->].
  destruct (setError_empty st2) as (_ & E2 & E3 & E4 & _ & _ & E7).
  set (hE := fst (setError "" st2)) in *.
  set (wE := snd (setError "" st2)) in *.
  simpl in E2, E3, E4.
  unfold setTranscription; simpl.
  destruct (decide (_transcription hE = t)) as [Heq|_]; [congruence|].
  apply Str_empty_false in Ht. rewrite Ht.
  pose proof (saved_audio_path_nonempty e h) as Hpath.
  unfold cleanupAudioFile; simpl. rewrite E4.
  apply Str_empty_false in Hpath. rewrite Hpath.
  apply Str_empty_false in Ht.
  destruct (remove_throws e) eqn:Hrm.
  - match goal with |- context [setState Idle ?s] =>
      destruct (setState_fields Idle s) as (_ & F2 & F3 & _ & _ & _ & F7);
      pose proof (setState_state Idle s) as F0
    end.
    simpl in F2, F3, F7.
    rewrite F0, F2, F3, F7.
    split; [reflexivity|]. split; [exact Ht|].
    split; [discriminate|]. intros _. split; [reflexivity|].
    subst wE. rewrite E7. simpl.
    apply elem_of_union_r, elem_of_singleton. reflexivity.
  - match goal with |- context [setState Idle ?s] =>
      destruct (setState_fields Idle s) as (_ & F2 & F3 & _ & _ & _ & F7);
      pose proof (setState_state Idle s) as F0
    end.
    simpl in F2, F3, F7.
    rewrite F0, F2, F3, F7.
    split; [reflexivity|]. split; [exact Ht|].
    split; [|discriminate]. intros _. split; [reflexivity|].
    rewrite elem_of_difference, elem_of_singleton. tauto.
Qed.

(** C3, as the code has it.  After any sequence of [startRecording] and
    [stopRecording] calls on a handler that started out [Idle], a
    [stopRecording] that returns true leaves the state [Idle] and a
    non-empty transcription stored.  The audio file written by that call is
    gone and the retained path is empty, unless deleting the file threw: then
    the call still returns true, the file is still there and its path is
    retained. *)
Theorem stopRecording_success_is_idle_and_cleans_up
    (calls : list Call) (e : Env) (h0 : VoiceCommandHandler) (w0 : World)
    (st st' : St) :
  _state h0 = Idle ->
  run L calls (h0, w0) = Some st ->
  stopRecording L e st = Some (true, st') ->
  _state (fst st') = Idle
  /\ _transcription (fst st') <> ""
  /\ (remove_throws e = false ->
      _lastAudioPath (fst st') = ""
      /\ saved_audio_path e (fst st) ∉ files (snd st'))
  /\ (remove_throws e = true ->
      _lastAudioPath (fst st') = saved_audio_path e (fst st)
      /\ saved_audio_path e (fst st) ∈ files (snd st')).
Proof.
  intros Hidle Hrun Hstop.
  assert (Hinv : recording_has_no_transcription st).
  { apply (run_keeps_invariant L calls (h0, w0) st); [|exact Hrun].
    unfold recording_has_no_transcription; simpl.
    rewrite Hidle. discriminate. }
  destruct st as [h w].
  apply (stopRecording_true e h w st'); [|exact Hstop].
  apply Hinv. simpl.
  unfold stopRecording in Hstop; simpl in Hstop.
  destruct (decide (_state h = Recording)); [assumption|discriminate].
Qed.

End VoiceSessionEnd.

Lemma stopRecording_success_is_idle_and_cleans_up_witness :
  Voice._state (fst second_session_over) = Voice.Idle
  /\ Voice._transcription (fst second_session_over) <> ""
  /\ Voice._lastAudioPath (fst second_session_over) = ""
  /\ example_audio_path ∉ Voice.files (snd second_session_over).
Proof.
  destruct (stopRecording_success_is_idle_and_cleans_up JsonText.lib
              two_sessions Examples.good_env Examples.ready Examples.quiet
              in_second_session second_session_over)
    as (Hidle & Htext & Hgone & _).
  - reflexivity.
  - vm_compute. reflexivity.
  - vm_compute. reflexivity.
  - destruct (Hgone eq_refl) as [Hpath Hfile].
    repeat split; assumption.
Defined.

(** C3 as the specification words it fails when deleting the audio file
    throws: [stopRecording] returns true and the state is [Idle], yet the
    path is retained and the file is still on disk. *)
Lemma stopRecording_success_is_idle_and_cleans_up_counterexample :
  run JsonText.lib [CallStart Examples.good_env]
    (Examples.ready, Examples.quiet) = Some Examples.recording
  /\ option_map fst
       (Voice.stopRecording JsonText.lib
          (Examples.env_hearing "fly to mars" true) Examples.recording)
     = Some true
  /\ option_map (fun r => Voice._state (fst (snd r)))
       (Voice.stopRecording JsonText.lib
          (Examples.env_hearing "fly to mars" true) Examples.recording)
     = Some Voice.Idle
  /\ option_map (fun r => Voice._lastAudioPath (fst (snd r)))
       (Voice.stopRecording JsonText.lib
          (Examples.env_hearing "fly to mars" true) Examples.recording)
     = Some example_audio_path
  /\ option_map
       (fun r => bool_decide (example_audio_path ∈ Voice.files (snd (snd r))))
       (Voice.stopRecording JsonText.lib
          (Examples.env_hearing "fly to mars" true) Examples.recording)
     = Some true.
Proof. vm_compute. repeat split. Qed.

(** ** The transcription step *)

Section VoiceTranscription.

Import Voice.

Variable L : Json.Lib.


End VoiceTranscription.


(** ** What [sendMessage] puts on the socket *)

Section IPCMessages.

Import Json JsonText.

Lemma append_cons (c : ascii) (s t : string) :
  String c s +:+ t = String c (s +:+ t).
Proof. reflexivity. Qed.

Lemma append_empty (t : string) : "" +:+ t = t.
Proof. reflexivity. Qed.






End IPCMessages.



(** ** The duplicate-name algorithm *)

Section DuplicateProfile.

Import ProfileEdit.


End DuplicateProfile.


(** ** The duration of a path *)

Section PathDuration.

Import Autonavigation.

Variable Waypoint : Type.
Variable curve_length : Curve -> Waypoint -> Waypoint -> PrimFloat.float.
Variable log : PrimFloat.float -> PrimFloat.float.

(** C7.  A path constructed without an explicit duration has as duration
    the logarithm of its length divided by the speed scale; a path
    constructed with an explicit duration has that duration.  Construction
    fails only for a curve type the constructor does not know. *)
Theorem Path_duration_is_log_length_over_speed_scale
    (start finish : Waypoint) (type : CurveType)
    (explicit speedScale : PrimFloat.float) :
  match Path_new Waypoint curve_length log start finish type None speedScale with
  | Some p =>
      duration Waypoint p
      = PrimFloat.div (log (pathLength Waypoint curve_length p)) speedScale
  | None => type = Unrecognized
  end
  /\ match Path_new Waypoint curve_length log start finish type
             (Some explicit) speedScale with
     | Some p => duration Waypoint p = explicit
     | None => type = Unrecognized
     end.
Proof. destruct type; simpl; split; reflexivity. Qed.

End PathDuration.

(** * Further properties of the voice command handler *)

Section VoiceOutcomes.

Import Voice.

Variable L : Json.Lib.

(** The setters reach the world only through the list of callback runs. *)
Lemma setState_world (s : VoiceState) (st : St) :
  capturing (snd (setState s st)) = capturing (snd st)
  /\ scriptQueue (snd (setState s st)) = scriptQueue (snd st)
  /\ idleTimers (snd (setState s st)) = idleTimers (snd st).
Proof.
  destruct st as [h w]. unfold setState; simpl.
  destruct (decide _); simpl; repeat split; reflexivity.
Qed.

Lemma setError_world (msg : string) (st : St) :
  capturing (snd (setError msg st)) = capturing (snd st)
  /\ scriptQueue (snd (setError msg st)) = scriptQueue (snd st)
  /\ idleTimers (snd (setError msg st)) = idleTimers (snd st).
Proof.
  destruct st as [h w]. unfold setError; simpl.
  destruct (decide _); simpl; [repeat split; reflexivity|].
  destruct (Str.empty msg); simpl; [repeat split; reflexivity|].
  apply (setState_world Error (with_error msg h, w)).
Qed.

Lemma setTranscription_world (e : Env) (t : string) (st : St) :
  capturing (snd (setTranscription e t st)) = capturing (snd st)
  /\ scriptQueue (snd (setTranscription e t st)) = scriptQueue (snd st)
  /\ idleTimers (snd (setTranscription e t st)) = idleTimers (snd st).
Proof.
  destruct st as [h w]. unfold setTranscription; simpl.
  destruct (decide _); simpl; [repeat split; reflexivity|].
  destruct (Str.empty t); simpl; [repeat split; reflexivity|].
  destruct (setState_world Idle (cleanupAudioFile e (with_transcription t h, w)))
    as (H1 & H2 & H3).
  rewrite H1, H2, H3. unfold cleanupAudioFile; simpl.
  destruct (Str.empty (_lastAudioPath h)); simpl; [repeat split; reflexivity|].
  destruct (remove_throws e); simpl; repeat split; reflexivity.
Qed.

Lemma setError_nonempty (msg : string) (st : St) :
  msg <> "" -> _error (fst (setError msg st)) <> "".
Proof. intros Hmsg. now rewrite setError_error. Qed.

(** An empty result of the transcription step always comes with a stored
    error message. *)
Lemma processAudioData_failure (e : Env) (st st' : St) :
  processAudioData L e st = Some ("", st') ->
  exists msg : string, msg <> "" /\ st' = setError msg st.
Proof.
  unfold processAudioData, read_response.
  destruct (Str.empty (_lastAudioPath (fst st)));
    [intros [= <-]; eexists; split; [|reflexivity]; discriminate|].
  destruct (negb (popen_ok e));
    [intros [= <-]; eexists; split; [|reflexivity]; discriminate|].
  destruct (negb (found_json _));
    [intros [= <-]; eexists; split; [|reflexivity]; discriminate|].
  destruct (negb (pipe_status e =? 0));
    [intros [= <-]; eexists; split; [|reflexivity]; discriminate|].
  destruct (Json.parse L _) as [response|what];
    [|intros [= <-]; eexists; split; [|reflexivity]; discriminate].
  destruct (Json.bind (Json.index L response "error") _) as [err|what|];
    [|intros [= <-]; eexists; split; [|reflexivity]; discriminate
     |discriminate].
  destruct (Str.empty err) eqn:Herr; simpl;
    [|intros [= <-]; exists err; split;
      [now apply Str_empty_false|reflexivity]].
  destruct (negb (Json.contains response "text"));
    [intros [= <-]; eexists; split; [|reflexivity]; discriminate|].
  destruct (Json.bind (Json.index L response "text") _) as [txt|what|];
    [|intros [= <-]; eexists; split; [|reflexivity]; discriminate
     |discriminate].
  destruct (Str.empty txt) eqn:Htxt;
    [intros [= <-]; eexists; split; [|reflexivity]; discriminate|].
  intros [= Habs _]. apply Str_empty_false in Htxt. congruence.
Qed.

(** X1.  The transcription step has two outcomes.  It returns the empty
    string, and then a non-empty error message is stored; or it returns a
    non-empty text, and then the stored error is empty and the state is the
    one before.  In neither case does it store the transcription, touch
    the files on disk or hand a script to the script engine. *)
Theorem processAudioData_error_or_text
    (e : Env) (st st' : St) (t : string) :
  processAudioData L e st = Some (t, st') ->
  (t = "" -> _error (fst st') <> "")
  /\ (t <> "" ->
      _error (fst st') = "" /\ _state (fst st') = _state (fst st)
      /\ _needsRetry (fst st') = false)
  /\ _transcription (fst st') = _transcription (fst st)
  /\ _lastAudioPath (fst st') = _lastAudioPath (fst st)
  /\ files (snd st') = files (snd st)
  /\ scriptQueue (snd st') = scriptQueue (snd st).
Proof.
  intros Hp. destruct (string_dec t "") as [->|Ht].
  - destruct (processAudioData_failure e st st' Hp) as (msg & Hmsg & ->).
    destruct (setError_fields msg st) as (F1 & F2 & _ & _ & _ & F6).
    destruct (setError_world msg st) as (_ & W2 & _).
    split; [intros _; now apply setError_nonempty|].
    split; [congruence|]. repeat split; assumption.
  - destruct (processAudioData_success L e st st' t Hp Ht) as [_ ->].
    destruct (setError_empty st) as (E1 & E2 & E3 & E4 & _ & _ & E7).
    simpl. split; [congruence|].
    split; [intros _; repeat split; assumption|].
    rewrite E7. repeat split; assumption.
Qed.

End VoiceOutcomes.

Lemma processAudioData_error_or_text_witness :
  fst heard = "fly to mars"
  /\ Voice._error (fst (snd heard)) = ""
  /\ Voice._state (fst (snd heard)) = Voice.Recording
  /\ Voice._transcription (fst (snd heard)) = "".
Proof.
  destruct (processAudioData_error_or_text JsonText.lib Examples.good_env
              saved_recording (snd heard) (fst heard))
    as (_ & Htext & Htr & _).
  - vm_compute. reflexivity.
  - split; [reflexivity|].
    destruct Htext as (He & Hs & _); [discriminate|].
    repeat split; assumption.
Defined.

Section VoiceStopOutcomes.

Import Voice.

Variable L : Json.Lib.

Lemma stopRecording_outcome
    (e : Env) (h : VoiceCommandHandler) (w : World) (r : bool) (st' : St) :
  stopRecording L e (h, w) = Some (r, st') ->
  _state (fst st') <> Recording
  /\ (r = false ->
      _error (fst st') <> ""
      /\ (_state h = Recording -> _state (fst st') = Error))
  /\ (_state h = Recording -> _audioDevice h = true ->
      capturing (snd st') = false)
  /\ scriptQueue (snd st') = scriptQueue w
  /\ (r = true -> _error (fst st') = "" /\ _state (fst st') <> Error).
Proof.
  unfold stopRecording; simpl.
  destruct (decide (_state h = Recording)) as [Hrec|Hne].
  - set (w1 := if _audioDevice h then with_capturing false w else w).
    assert (Hw1 : _audioDevice h = true -> capturing w1 = false).
    { intros Hdev. subst w1. now rewrite Hdev. }
    assert (Hq1 : scriptQueue w1 = scriptQueue w).
    { subst w1. now destruct (_audioDevice h). }
    set (st1 := setState Processing (h, w1)).
    assert (Hst1 : _state (fst st1) = Processing) by apply setState_state.
    destruct (setState_world Processing (h, w1)) as (C1 & Q1 & _).
    fold st1 in C1, Q1. simpl in C1, Q1.
    unfold saveAudioToTemp.
    destruct (negb (file_open_ok e)); simpl.
    { intros [= <- <-].
      set (stE := setError "Failed to save audio data" st1).
      destruct (setState_fields Error stE) as (F1 & _).
      destruct (setState_world Error stE) as (C2 & Q2 & _).
      destruct (setError_world "Failed to save audio data" st1) as (C3 & Q3 & _).
      fold stE in C3, Q3.
      rewrite setState_state, F1, C2, Q2, C3, Q3, C1, Q1, Hq1.
      split; [discriminate|]. split.
      - intros _. split; [|reflexivity].
        subst stE. apply setError_nonempty. discriminate.
      - split; [intros _; exact Hw1|]. split; [reflexivity|discriminate]. }
    destruct (negb (file_write_ok e)); simpl.
    { intros [= <- <-].
      match goal with |- context [setError ?m ?s] => set (st2 := s) end.
      set (stE := setError "Failed to save audio data" st2).
      destruct (setState_fields Error stE) as (F1 & _).
      destruct (setState_world Error stE) as (C2 & Q2 & _).
      destruct (setError_world "Failed to save audio data" st2) as (C3 & Q3 & _).
      fold stE in C3, Q3.
      rewrite setState_state, F1, C2, Q2, C3, Q3. simpl. rewrite C1, Q1, Hq1.
      split; [discriminate|]. split.
      - intros _. split; [|reflexivity].
        subst stE. apply setError_nonempty. discriminate.
      - split; [intros _; exact Hw1|]. split; [reflexivity|discriminate]. }
    match goal with |- context [processAudioData L e ?s] => set (st2 := s) end.
    assert (C2 : capturing (snd st2) = capturing w1) by exact C1.
    assert (Q2 : scriptQueue (snd st2) = scriptQueue w) by (simpl; congruence).
    destruct (processAudioData L e st2) as [[t st3]|] eqn:Hp; [|discriminate].
    destruct (Str.empty t) eqn:Ht.
    + apply Str_empty_true in Ht. subst t.
      intros [= <- <-].
      destruct (processAudioData_failure L e st2 st3 Hp) as (msg & Hmsg & ->).
      set (stE := setError msg st2).
      destruct (setState_fields Error stE) as (F1 & _).
      destruct (setState_world Error stE) as (C3 & Q3 & _).
      destruct (setError_world msg st2) as (C4 & Q4 & _).
      fold stE in C4, Q4.
      rewrite setState_state, F1, C3, Q3, C4, Q4, C2, Q2.
      split; [discriminate|]. split.
      * intros _. split; [|reflexivity].
        subst stE. now apply setError_nonempty.
      * split; [intros _; exact Hw1|]. split; [reflexivity|discriminate].
    + apply Str_empty_false in Ht.
      intros [= <- <-].
      destruct (processAudioData_success L e st2 st3 t Hp Ht) as [_ ->].
      destruct (setError_empty st2) as (_ & E2 & _ & _ & _ & _ & E7).
      match goal with |- context [setTranscription e t ?s] => set (st4 := s) end.
      destruct (setTranscription_world e t st4) as (C5 & Q5 & _).
      destruct (setTranscription_state_fields e t st4) as (T1 & _).
      destruct (setError_empty st2) as (E1 & _).
      rewrite C5, Q5, T1. subst st4. simpl. rewrite E7, C2, Q2.
      assert (Hstate : forall s : VoiceState, s <> Idle -> s <> Processing ->
                _state (fst (setTranscription e t
                  (with_audio_file (_lastAudioPath (fst (setError "" st2)))
                     false (fst (setError "" st2)), snd st2))) <> s).
      { intros s Hs1 Hs2. unfold setTranscription; simpl.
        destruct (decide _); simpl.
        - rewrite E2. simpl. rewrite Hst1. congruence.
        - apply Str_empty_false in Ht. rewrite Ht.
          rewrite setState_state. congruence. }
      split; [apply Hstate; discriminate|].
      split; [discriminate|]. split; [intros _; exact Hw1|].
      split; [reflexivity|]. intros _. split; [exact E1|].
      apply Hstate; discriminate.
  - intros [= <- <-].
    destruct (setError_world "Not currently recording" (h, w)) as (_ & Q & _).
    rewrite Q. split.
    + rewrite setError_state; simpl.
      destruct (decide _); [exact Hne|]. simpl. discriminate.
    + split; [|split; [congruence|split; [reflexivity|discriminate]]].
      intros _. split; [|congruence].
      apply setError_nonempty. discriminate.
Qed.

(** X2.  However [stopRecording] ends, the handler is not [Recording]
    afterwards and no script has been queued.  When it returns false a
    non-empty error message is stored, and if the call was made while
    [Recording] the state is [Error].  When it was made while [Recording]
    with a capture device, the device has been stopped. *)
Theorem stopRecording_ends_the_recording
    (e : Env) (h : VoiceCommandHandler) (w : World) (r : bool) (st' : St) :
  stopRecording L e (h, w) = Some (r, st') ->
  _state (fst st') <> Recording
  /\ (r = false ->
      _error (fst st') <> ""
      /\ (_state h = Recording -> _state (fst st') = Error))
  /\ (_state h = Recording -> _audioDevice h = true ->
      capturing (snd st') = false)
  /\ scriptQueue (snd st') = scriptQueue w.
Proof.
  intros Hstop.
  destruct (stopRecording_outcome e h w r st' Hstop) as (H1 & H2 & H3 & H4 & _).
  repeat split; assumption || apply H2; assumption.
Qed.

End VoiceStopOutcomes.

Lemma stopRecording_ends_the_recording_witness :
  fst stop_failed = false
  /\ Voice._state (fst (snd stop_failed)) = Voice.Error
  /\ Voice._error (fst (snd stop_failed))
     = "Python script failed with status: 1"
  /\ Voice.capturing (snd (snd stop_failed)) = false.
Proof.
  destruct (stopRecording_ends_the_recording JsonText.lib env_failing
              (fst Examples.recording) (snd Examples.recording)
              (fst stop_failed) (snd (stop_failed)))
    as (_ & Hfalse & Hdev & _).
  - vm_compute. reflexivity.
  - destruct (Hfalse eq_refl) as [_ Herr].
    split; [reflexivity|]. split; [exact (Herr eq_refl)|].
    split; [reflexivity|]. exact (Hdev eq_refl eq_refl).
Defined.

Section VoiceErrorInvariant.

Import Voice.

Variable L : Json.Lib.

Lemma setError_marks_Error (msg : string) (st : St) :
  msg <> "" ->
  error_marks_Error st ->
  _state (fst (setError msg st)) = Error
  /\ _error (fst (setError msg st)) <> "".
Proof.
  intros Hmsg Hinv. split; [|now apply setError_nonempty].
  rewrite setError_state.
  destruct (decide _) as [Heq|_].
  - apply Hinv. congruence.
  - apply Str_empty_false in Hmsg. now rewrite Hmsg.
Qed.

Lemma marks_Error_intro (st : St) :
  _state (fst st) = Error /\ _error (fst st) <> "" -> error_marks_Error st.
Proof. intros [H1 H2]. split; auto. Qed.

Lemma startRecording_keeps_error_mark (e : Env) (st : St) :
  error_marks_Error st ->
  error_marks_Error (snd (startRecording e st)).
Proof.
  intros Hinv. destruct st as [h w]. unfold startRecording; simpl.
  destruct (decide (_state h = Recording)); simpl;
    [apply marks_Error_intro, setError_marks_Error;
     [discriminate|exact Hinv]|].
  destruct (negb (_audioDevice h) && negb (device_init_ok e)); simpl;
    [apply marks_Error_intro, setError_marks_Error;
     [discriminate|exact Hinv]|].
  destruct (negb (device_start_ok e)); simpl;
    [apply marks_Error_intro, setError_marks_Error;
     [discriminate|exact Hinv]|].
  set (st1 := (with_audio true [] h, with_capturing true w)).
  destruct (setError_empty st1) as (E1 & _).
  destruct (setTranscription_empty e (setError "" st1)) as (_ & T2 & _).
  destruct (setState_fields Recording (setTranscription e "" (setError "" st1)))
    as (F1 & _).
  unfold error_marks_Error.
  rewrite setState_state, F1, T2, E1. split; [discriminate|congruence].
Qed.

Lemma stopRecording_keeps_error_mark (e : Env) (st : St) (r : bool * St) :
  error_marks_Error st ->
  stopRecording L e st = Some r ->
  error_marks_Error (snd r).
Proof.
  intros Hinv Hstop. destruct st as [h w]. destruct r as [r st'].
  destruct (stopRecording_outcome L e h w r st' Hstop)
    as (_ & Hfalse & _ & _ & Htrue).
  simpl. destruct r.
  - destruct (Htrue eq_refl) as [He Hs].
    unfold error_marks_Error. rewrite He. split; congruence.
  - destruct (Hfalse eq_refl) as [He Hs].
    destruct (decide (_state h = Recording)) as [Hrec|Hne].
    + apply marks_Error_intro. split; [exact (Hs Hrec)|exact He].
    + unfold stopRecording in Hstop; simpl in Hstop.
      destruct (decide (_state h = Recording)); [contradiction|].
      injection Hstop as <-.
      apply marks_Error_intro, setError_marks_Error;
        [discriminate|exact Hinv].
Qed.

(** X3.  Through any sequence of [startRecording] and [stopRecording]
    calls on a handler that starts out [Idle] with no error stored, the
    state is [Error] exactly when the stored error message is non-empty. *)
Theorem error_state_iff_error_message
    (calls : list Call) (h0 : VoiceCommandHandler) (w0 : World) (st : St) :
  _state h0 = Idle ->
  _error h0 = "" ->
  run L calls (h0, w0) = Some st ->
  _state (fst st) = Error <-> _error (fst st) <> "".
Proof.
  intros Hidle Herr.
  assert (Hinv : error_marks_Error (h0, w0)).
  { unfold error_marks_Error; simpl. rewrite Hidle, Herr.
    split; [discriminate|congruence]. }
  clear Hidle Herr. revert Hinv. generalize (h0, w0). clear h0 w0.
  induction calls as [|c calls IH]; intros st0 Hinv; simpl.
  - intros [= <-]. exact Hinv.
  - destruct c as [e|e]; simpl.
    + apply IH. now apply startRecording_keeps_error_mark.
    + destruct (stopRecording L e st0) as [r|] eqn:Hstop; simpl; [|discriminate].
      apply IH. now apply (stopRecording_keeps_error_mark e st0 r).
Qed.

End VoiceErrorInvariant.

Lemma error_state_iff_error_message_witness :
  Voice._error (fst after_eventful_calls) = "Already recording"
  /\ (Voice._state (fst after_eventful_calls) = Voice.Error
      <-> Voice._error (fst after_eventful_calls) <> "").
Proof.
  split; [reflexivity|].
  apply (error_state_iff_error_message JsonText.lib eventful_calls
           Examples.ready Examples.quiet after_eventful_calls).
  - reflexivity.
  - reflexivity.
  - vm_compute. reflexivity.
Defined.

(** ** Reading the output of the transcription process *)

Section VoiceScan.

Import Voice.

Lemma string_append_empty_r (s : string) : s +:+ "" = s.
Proof. induction s as [|c s IH]; [reflexivity|]. rewrite append_cons. now rewrite IH. Qed.

Lemma string_append_assoc (a b c : string) : (a +:+ b) +:+ c = a +:+ (b +:+ c).
Proof. induction a as [|x a IH]; [reflexivity|]. rewrite !append_cons. now rewrite IH. Qed.

Lemma string_length_append (a b : string) :
  String.length (a +:+ b) = (String.length a + String.length b)%nat.
Proof. induction a as [|x a IH]; [reflexivity|]. rewrite append_cons. simpl. now rewrite IH. Qed.

Lemma ends_line_has_newline (c : ascii) (s : string) :
  ends_line (String c s) = true -> has_newline (String c s) = true.
Proof.
  revert c. induction s as [|d s IH]; intros c H.
  - simpl in *. now rewrite H.
  - change (ends_line (String d s) = true) in H.
    change (has_newline (String c (String d s)))
      with (Ascii.eqb c "010" || has_newline (String d s)).
    rewrite (IH d H). apply orb_true_r.
Qed.

Lemma fgets_app (n : nat) (a b : string) :
  has_newline a = true \/ (String.length a >= n)%nat ->
  fgets n (a +:+ b) = (fst (fgets n a), snd (fgets n a) +:+ b).
Proof.
  revert a. induction n as [|n IH]; intros a H.
  - reflexivity.
  - destruct a as [|c a].
    + destruct H as [H|H]; simpl in H; [discriminate|lia].
    + rewrite append_cons. simpl.
      destruct (Ascii.eqb c "010") eqn:Hc; [reflexivity|].
      rewrite IH; [reflexivity|].
      destruct H as [H|H]; simpl in H.
      * rewrite Hc in H. left; exact H.
      * right; lia.
Qed.

Lemma fgets_app_fst (n : nat) (a b : string) :
  has_newline a = true ->
  fst (fgets n (a +:+ b)) = fst (fgets n a).
Proof. intros H. rewrite fgets_app by (left; exact H). reflexivity. Qed.

Lemma fgets_app_snd (n : nat) (a b : string) :
  has_newline a = true ->
  snd (fgets n (a +:+ b)) = snd (fgets n a) +:+ b.
Proof. intros H. rewrite fgets_app by (left; exact H). reflexivity. Qed.

Lemma fgets_split (n : nat) (s : string) :
  fst (fgets n s) +:+ snd (fgets n s) = s.
Proof.
  revert s. induction n as [|n IH]; intros s; [reflexivity|].
  destruct s as [|c s]; [reflexivity|]. simpl.
  destruct (Ascii.eqb c "010"); [reflexivity|]. simpl.
  rewrite append_cons. now rewrite IH.
Qed.

Lemma fgets_rest_shorter (n : nat) (c : ascii) (s : string) :
  (String.length (snd (fgets (S n) (String c s))) <= String.length s)%nat.
Proof.
  pose proof (fgets_split (S n) (String c s)) as H.
  apply (f_equal String.length) in H. rewrite string_length_append in H.
  simpl in *. destruct (Ascii.eqb c "010"); simpl in *; lia.
Qed.

Lemma fgets_rest_ends_line (n : nat) (s : string) :
  ends_line s = true -> ends_line (snd (fgets n s)) = true.
Proof.
  revert s. induction n as [|n IH]; intros s H; [exact H|].
  destruct s as [|c s]; [reflexivity|]. simpl.
  destruct (Ascii.eqb c "010") eqn:Hc; simpl.
  - destruct s; [reflexivity|exact H].
  - apply IH. destruct s; [simpl in H; congruence|exact H].
Qed.

Lemma read_buffers_cons (f : nat) (c : ascii) (s : string) :
  read_buffers (S f) (String c s)
  = fst (fgets 1023 (String c s))
    :: read_buffers f (snd (fgets 1023 (String c s))).
Proof. reflexivity. Qed.

Lemma read_buffers_fuel (f1 : nat) :
  forall (f2 : nat) (s : string),
    (String.length s <= f1)%nat -> (String.length s <= f2)%nat ->
    read_buffers f1 s = read_buffers f2 s.
Proof.
  induction f1 as [|f1 IH]; intros f2 s H1 H2.
  - destruct s; [|simpl in H1; lia]. destruct f2; reflexivity.
  - destruct s as [|c s]; [destruct f2; reflexivity|].
    destruct f2 as [|f2]; [simpl in H2; lia|].
    rewrite !read_buffers_cons. f_equal.
    pose proof (fgets_rest_shorter 1022 c s).
    simpl in H1, H2. apply IH; lia.
Qed.

Lemma read_buffers_app (f : nat) :
  forall (a b : string) (F : nat),
    (String.length a <= f)%nat -> ends_line a = true ->
    (String.length (a +:+ b) <= F)%nat ->
    read_buffers F (a +:+ b) = read_buffers f a ++ read_buffers F b.
Proof.
  induction f as [|f IH]; intros a b F Ha Hends HF.
  - destruct a; [reflexivity|simpl in Ha; lia].
  - destruct a as [|c a]; [reflexivity|].
    rewrite append_cons in *.
    destruct F as [|F]; [simpl in HF; lia|].
    pose proof (fgets_rest_shorter 1022 c a) as Hshort.
    simpl in Ha, HF. rewrite string_length_append in HF.
    replace (read_buffers (S F) b) with (read_buffers F b)
      by (apply read_buffers_fuel; lia).
    rewrite !read_buffers_cons.
    rewrite <- (append_cons c a b).
    rewrite fgets_app_fst, fgets_app_snd
      by (apply ends_line_has_newline; exact Hends).
    rewrite (IH _ b F).
    + rewrite <- app_comm_cons. reflexivity.
    + lia.
    + now apply fgets_rest_ends_line.
    + rewrite string_length_append. lia.
Qed.

Lemma pipe_buffers_app (a b : string) :
  ends_line a = true ->
  pipe_buffers (a +:+ b) = pipe_buffers a ++ pipe_buffers b.
Proof.
  intros H. unfold pipe_buffers.
  rewrite (read_buffers_app (String.length a) a b); auto.
  f_equal. apply read_buffers_fuel; rewrite ?string_length_append; lia.
Qed.

Lemma scan_join_start (a : Scan) : scan_join a scan_start = a.
Proof. destruct a. unfold scan_join; simpl. now rewrite orb_false_r, string_append_empty_r. Qed.

Lemma scan_buffer_join (a x : Scan) (buffer : string) :
  scan_buffer (scan_join a x) buffer = scan_join a (scan_buffer x buffer).
Proof.
  unfold scan_buffer.
  destruct (Str.find_first_not_of _ _); [|reflexivity].
  destruct (Str.find_last_not_of _ _); [|reflexivity].
  destruct (Str.substr _ _ _) as [|c line]; [reflexivity|].
  destruct (Ascii.eqb c "{"); unfold scan_join; simpl.
  - now rewrite orb_true_r.
  - now rewrite string_append_assoc.
Qed.

Lemma scan_fold_join (l : list string) :
  forall a x : Scan,
    fold_left scan_buffer l (scan_join a x)
    = scan_join a (fold_left scan_buffer l x).
Proof.
  induction l as [|b l IH]; intros a x; simpl; [reflexivity|].
  now rewrite scan_buffer_join, IH.
Qed.

(** X4.  When the output of the transcription process starts with complete
    lines [a], the reading loop ends up with what it retains from [a]
    joined with what it retains from the rest [b]: a JSON line found in [b]
    replaces one found in [a] (the last JSON line is the one that is
    parsed), and the diagnostic lines of both are kept in order. *)
Theorem scan_output_of_complete_lines (a b : string) :
  ends_line a = true ->
  scan_output (a +:+ b) = scan_join (scan_output a) (scan_output b).
Proof.
  intros H. unfold scan_output.
  rewrite pipe_buffers_app by exact H.
  rewrite fold_left_app.
  rewrite <- (scan_join_start (fold_left scan_buffer (pipe_buffers a) scan_start)) at 1.
  apply scan_fold_join.
Qed.

Lemma fgets_fst_length (n : nat) (s : string) :
  (String.length (fst (fgets n s)) <= n)%nat.
Proof.
  revert s. induction n as [|n IH]; intros s; [simpl; lia|].
  destruct s as [|c s]; [simpl; lia|]. simpl.
  destruct (Ascii.eqb c "010"); simpl; [lia|].
  specialize (IH s). lia.
Qed.

Lemma read_buffers_bounded (fuel : nat) :
  forall s : string,
    Forall (fun b => (String.length b <= 1023)%nat) (read_buffers fuel s).
Proof.
  induction fuel as [|fuel IH]; intros s; [constructor|].
  destruct s as [|c s]; [constructor|].
  rewrite read_buffers_cons. constructor; [apply fgets_fst_length|apply IH].
Qed.

Lemma c_str_length (s : string) :
  (String.length (Str.c_str s) <= String.length s)%nat.
Proof.
  induction s as [|c s IH]; simpl; [lia|].
  destruct (Ascii.eqb c Ascii.zero); simpl; lia.
Qed.

Lemma substring_length (n m : nat) (s : string) :
  (String.length (String.substring n m s) <= String.length s)%nat.
Proof.
  revert n m. induction s as [|c s IH]; intros n m.
  - destruct n, m; simpl; lia.
  - destruct n as [|n].
    + destruct m as [|m]; simpl; [lia|]. specialize (IH O m). lia.
    + simpl. specialize (IH n m). lia.
Qed.

Lemma scan_buffer_shape (acc : Scan) (buffer : string) :
  (String.length buffer <= 1023)%nat ->
  scan_shape acc -> scan_shape (scan_buffer acc buffer).
Proof.
  intros Hlen Hacc. unfold scan_buffer.
  destruct (Str.find_first_not_of _ _) as [start|]; [|exact Hacc].
  destruct (Str.find_last_not_of _ _) as [last|]; [|exact Hacc].
  pose proof (substring_length start (last - start + 1) (Str.c_str buffer)) as Hsub.
  pose proof (c_str_length buffer) as Hc.
  unfold Str.substr.
  destruct (String.substring _ _ _) as [|c line] eqn:Hline; [exact Hacc|].
  destruct (Ascii.eqb c "{") eqn:Hbrace.
  - apply Ascii.eqb_eq in Hbrace. subst c.
    unfold scan_shape; simpl. split; [eauto|]. split; [discriminate|].
    simpl in Hsub. lia.
  - destruct Hacc as (H1 & H2 & H3). unfold scan_shape; simpl. auto.
Qed.

(** X5.  Whatever the transcription process prints, the line that the
    reading loop retains as the JSON result starts with an opening brace
    and is at most 1023 characters long, the size of one [fgets] buffer; so
    a JSON line longer than that never reaches the parser whole.  When no
    JSON line was found nothing is retained. *)
Theorem scan_output_result_shape (output : string) :
  (found_json (scan_output output) = true ->
   exists rest : string, result (scan_output output) = String "{" rest)
  /\ (found_json (scan_output output) = false -> result (scan_output output) = "")
  /\ (String.length (result (scan_output output)) <= 1023)%nat.
Proof.
  unfold scan_output, pipe_buffers.
  generalize (read_buffers_bounded (String.length output) output).
  generalize (read_buffers (String.length output) output).
  assert (Hstart : scan_shape scan_start).
  { unfold scan_shape; simpl. split; [discriminate|]. split; [reflexivity|lia]. }
  revert Hstart. generalize scan_start.
  intros acc Hacc l Hl. revert acc Hacc.
  induction Hl as [|b l Hb _ IH]; intros acc Hacc; simpl; [exact Hacc|].
  apply IH. now apply scan_buffer_shape.
Qed.

End VoiceScan.

Lemma scan_output_of_complete_lines_witness :
  Voice.result (Voice.scan_output (early_lines +:+ late_lines))
  = Examples.transcript_line "second"
  /\ Voice.debug_output (Voice.scan_output (early_lines +:+ late_lines))
     = "warming up" +:+ Voice.newline +:+ "done" +:+ Voice.newline.
Proof.
  rewrite (scan_output_of_complete_lines early_lines late_lines eq_refl).
  split; reflexivity.
Defined.

(** ** Script generation *)

Section VoiceScripts.

Import Voice.

Variable L : Json.Lib.

(** The two ways [generateAndExecuteScript] can end.  In the second the
    script that is queued is the [script] member of the parsed answer. *)
Lemma generateAndExecuteScript_outcome
    (e : Env) (t : string) (st st' : St) :
  generateAndExecuteScript L e t st = Some st' ->
  (exists msg : string,
      msg <> ""
      /\ (st' = setError msg st
          \/ st' = setState Error
                     (setError msg (setState GeneratingScript st))))
  \/ (exists (response : Json.json) (code : string),
        code <> "" /\ t <> "" /\ popen_ok e = true /\ pipe_status e = 0
        /\ Json.parse L (script_answer e) = inl response
        /\ Json.bind (Json.index L response "success") (Json.get_bool L)
           = Json.Got true
        /\ Json.bind (Json.index L response "script") (Json.get_string L)
           = Json.Got code
        /\ st' = script_queued code st).
Proof.
  unfold generateAndExecuteScript.
  destruct (Str.empty t) eqn:Ht.
  { intros [= <-]. left. eexists. split; [|left; reflexivity]. discriminate. }
  apply Str_empty_false in Ht.
  destruct (popen_ok e) eqn:Hpopen; simpl.
  2:{ intros [= <-]. left. eexists. split; [|right; reflexivity]. discriminate. }
  destruct (pipe_status e =? 0) eqn:Hstatus; simpl.
  2:{ intros [= <-]. left. eexists. split; [|right; reflexivity]. discriminate. }
  apply Z.eqb_eq in Hstatus.
  fold (script_answer e).
  destruct (Json.parse L (script_answer e)) as [response|what] eqn:Hparse.
  2:{ intros [= <-]. left. eexists. split; [|right; reflexivity]. discriminate. }
  unfold read_script.
  destruct (Json.bind (Json.index L response "success") _)
    as [[|]|what|] eqn:Hsuccess.
  - destruct (Json.bind (Json.index L response "script") _)
      as [code|what|] eqn:Hscript.
    + destruct (Str.empty code) eqn:Hcode.
      * intros [= <-]. left. eexists. split; [|right; reflexivity].
        discriminate.
      * intros [= <-]. right. exists response, code.
        apply Str_empty_false in Hcode. repeat split; auto.
    + intros [= <-]. left. eexists. split; [|right; reflexivity]. discriminate.
    + discriminate.
  - destruct (Json.bind (Json.index L response "error") _) as [err|what|].
    + intros [= <-]. left. eexists. split; [|right; reflexivity]. discriminate.
    + intros [= <-]. left. eexists. split; [|right; reflexivity]. discriminate.
    + discriminate.
  - intros [= <-]. left. eexists. split; [|right; reflexivity]. discriminate.
  - discriminate.
Qed.

(** The other direction: an answer with a true [success] and a non-empty
    [script] gets that script queued. *)
Lemma generateAndExecuteScript_success
    (e : Env) (t : string) (st : St) (response : Json.json) (code : string) :
  t <> "" -> popen_ok e = true -> pipe_status e = 0 ->
  Json.parse L (script_answer e) = inl response ->
  Json.bind (Json.index L response "success") (Json.get_bool L)
  = Json.Got true ->
  Json.bind (Json.index L response "script") (Json.get_string L)
  = Json.Got code ->
  code <> "" ->
  generateAndExecuteScript L e t st = Some (script_queued code st).
Proof.
  intros Ht Hpopen Hstatus Hparse Hsuccess Hscript Hcode.
  unfold generateAndExecuteScript.
  destruct (Str.empty t) eqn:Hempty.
  { apply Str_empty_true in Hempty. contradiction. }
  rewrite Hpopen, Hstatus. simpl.
  fold (script_answer e). rewrite Hparse.
  unfold read_script. rewrite Hsuccess, Hscript.
  destruct (Str.empty code) eqn:Hce.
  { apply Str_empty_true in Hce. contradiction. }
  reflexivity.
Qed.

Lemma script_queued_facts (code : string) (st : St) :
  _state (fst (script_queued code st)) = Success
  /\ _error (fst (script_queued code st)) = ""
  /\ _transcription (fst (script_queued code st)) = _transcription (fst st)
  /\ scriptQueue (snd (script_queued code st)) = scriptQueue (snd st) ++ [code]
  /\ idleTimers (snd (script_queued code st)) = S (idleTimers (snd st))
  /\ files (snd (script_queued code st)) = files (snd st).
Proof.
  unfold script_queued. cbv zeta.
  set (st1 := setState GeneratingScript st).
  set (stq := (fst st1, with_script code (snd st1))).
  destruct (setState_fields GeneratingScript st) as (_ & G2 & _ & _ & _ & _ & G7).
  destruct (setState_world GeneratingScript st) as (_ & GQ & GT).
  destruct (setError_empty stq) as (E1 & _ & E3 & _ & _ & _ & E7).
  destruct (setState_fields Success (setError "" stq))
    as (S1 & S2 & _ & _ & _ & _ & S7).
  destruct (setState_world Success (setError "" stq)) as (_ & SQ & ST).
  simpl. rewrite setState_state, S1, S2, SQ, ST, S7, E1, E3, E7.
  subst stq st1. simpl. rewrite G2, GQ, GT, G7.
  repeat split; reflexivity.
Qed.

(** X6.  [generateAndExecuteScript] hands a script to the script engine in
    one case only: the subprocess started, exited with status 0 and
    answered with a non-empty script.  Then exactly that one script, the
    [script] member of the parsed answer, is appended to the queue, the
    state is [Success], the error is empty and one timer is pending.  In
    every other case the queue and the pending timers are as before and a
    non-empty error message is stored.  The stored transcription is never
    changed.  And whenever the subprocess answers so for a non-empty
    transcription, its script is the one appended. *)
Theorem generateAndExecuteScript_queues_only_on_success
    (e : Env) (t : string) (st st' : St) :
  generateAndExecuteScript L e t st = Some st' ->
  _transcription (fst st') = _transcription (fst st)
  /\ ((scriptQueue (snd st') = scriptQueue (snd st)
       /\ idleTimers (snd st') = idleTimers (snd st)
       /\ _error (fst st') <> "")
      \/ (exists (response : Json.json) (code : string),
            code <> "" /\ t <> ""
            /\ popen_ok e = true /\ pipe_status e = 0
            /\ Json.parse L (script_answer e) = inl response
            /\ Json.bind (Json.index L response "success") (Json.get_bool L)
               = Json.Got true
            /\ Json.bind (Json.index L response "script") (Json.get_string L)
               = Json.Got code
            /\ scriptQueue (snd st') = scriptQueue (snd st) ++ [code]
            /\ idleTimers (snd st') = S (idleTimers (snd st))
            /\ _state (fst st') = Success
            /\ _error (fst st') = ""))
  /\ (forall (response : Json.json) (code : string),
        t <> "" -> popen_ok e = true -> pipe_status e = 0 ->
        Json.parse L (script_answer e) = inl response ->
        Json.bind (Json.index L response "success") (Json.get_bool L)
        = Json.Got true ->
        Json.bind (Json.index L response "script") (Json.get_string L)
        = Json.Got code ->
        code <> "" ->
        scriptQueue (snd st') = scriptQueue (snd st) ++ [code]
        /\ _state (fst st') = Success).
Proof.
  intros Hgen.
  assert (Hconverse : forall (response : Json.json) (code : string),
             t <> "" -> popen_ok e = true -> pipe_status e = 0 ->
             Json.parse L (script_answer e) = inl response ->
             Json.bind (Json.index L response "success") (Json.get_bool L)
             = Json.Got true ->
             Json.bind (Json.index L response "script") (Json.get_string L)
             = Json.Got code ->
             code <> "" ->
             scriptQueue (snd st') = scriptQueue (snd st) ++ [code]
             /\ _state (fst st') = Success).
  { intros response code Ht Hp Hs Hparse Hsuccess Hscript Hcode.
    rewrite (generateAndExecuteScript_success e t st response code
               Ht Hp Hs Hparse Hsuccess Hscript Hcode) in Hgen.
    injection Hgen as <-.
    destruct (script_queued_facts code st) as (K1 & _ & _ & K4 & _).
    split; assumption. }
  destruct (generateAndExecuteScript_outcome e t st st' Hgen)
    as [(msg & Hmsg & [-> | ->])
       | (response & code & Hcode & Ht & Hp & Hs & Hparse & Hsuccess
          & Hscript & ->)].
  - destruct (setError_fields msg st) as (F1 & _).
    destruct (setError_world msg st) as (_ & Q & T).
    split; [exact F1|]. split; [|exact Hconverse].
    left. repeat split; auto.
    now apply setError_nonempty.
  - set (st1 := setState GeneratingScript st).
    destruct (setState_fields GeneratingScript st) as (_ & G2 & _).
    destruct (setState_world GeneratingScript st) as (_ & GQ & GT).
    destruct (setError_fields msg st1) as (F1 & _).
    destruct (setError_world msg st1) as (_ & Q & T).
    destruct (setState_fields Error (setError msg st1)) as (S1 & S2 & _).
    destruct (setState_world Error (setError msg st1)) as (_ & SQ & ST).
    fold st1 in G2, GQ, GT.
    split; [congruence|]. split; [|exact Hconverse]. left.
    rewrite SQ, ST, S1, Q, T, GQ, GT. repeat split.
    now apply setError_nonempty.
  - destruct (script_queued_facts code st) as (K1 & K2 & K3 & K4 & K5 & _).
    split; [exact K3|]. split; [|exact Hconverse].
    right. exists response, code. repeat split; assumption.
Qed.

End VoiceScripts.

Lemma generateAndExecuteScript_queues_only_on_success_witness :
  Voice.scriptQueue (snd confirmed) = ["openspace.time.setPause(true)"]
  /\ Voice._state (fst confirmed) = Voice.Success
  /\ Voice._transcription (fst confirmed) = "pause the time".
Proof.
  destruct (generateAndExecuteScript_queues_only_on_success JsonText.lib
              env_scripting "pause the time" transcribed confirmed)
    as (Htr & _ & Hqueued).
  - vm_compute. reflexivity.
  - destruct (Hqueued
                (Json.JObject
                   [("success", Json.JBool true);
                    ("script", Json.JString "openspace.time.setPause(true)")])
                "openspace.time.setPause(true)")
      as (Hqueue & Hstate).
    + discriminate.
    + reflexivity.
    + reflexivity.
    + vm_compute. reflexivity.
    + vm_compute. reflexivity.
    + vm_compute. reflexivity.
    + discriminate.
    + split; [exact Hqueue|]. split; [exact Hstate|exact Htr].
Defined.

(** ** The recording indicator *)

Section VoiceIndicator.

Import Voice VoiceGui.

Variable L : Json.Lib.

Lemma indicator_same (h h' : VoiceCommandHandler) (w w' : World) :
  _isRecording h' = _isRecording h -> _state h' = _state h ->
  indicator_agrees (h, w) -> indicator_agrees (h', w').
Proof. unfold indicator_agrees; simpl. intros -> ->. auto. Qed.












End VoiceIndicator.


(** ** Status updates and WebGUI messages *)

Section VoiceStatus.

Import Voice VoiceGui.

Variable L : Json.Lib.

(** X8.  The scripting library and the topic report a state by the same
    keyword.  Fed back through [sendStatusUpdate] with no transcription
    and no error, the keyword of [Idle], [Recording], [Processing] or
    [Error] sets exactly that state; [GeneratingScript] and [Success] are
    both reported as "unknown", which [sendStatusUpdate] ignores, so the
    state stays what it was. *)
Theorem status_keyword_round_trip (e : Env) (s : VoiceState) (st : St) :
  lua_state_keyword s = VoiceTopic.stateStr s
  /\ _state (fst (sendStatusUpdate e (VoiceTopic.stateStr s) "" "" st)) =
       match s with
       | GeneratingScript | Success => _state (fst st)
       | _ => s
       end.
Proof.
  split; [destruct s; reflexivity|].
  unfold sendStatusUpdate. simpl.
  destruct s; simpl; try apply setState_state; reflexivity.
Qed.

Lemma keyword_state_sets (e : Env) (status transcription error : string)
    (s : VoiceState) (st : St) :
  keyword_state status = Some s ->
  exists st2 : St,
    sendStatusUpdate e status transcription error st = setState s st2
    /\ st2 = (if negb (Str.empty transcription)
              then setTranscription e transcription
                     (if negb (Str.empty error) then setError error st else st)
              else (if negb (Str.empty error) then setError error st else st)).
Proof.
  unfold keyword_state, sendStatusUpdate. intros Hk.
  eexists. split; [|reflexivity].
  destruct (String.eqb status "idle"); [injection Hk as <-; reflexivity|].
  destruct (String.eqb status "recording"); [injection Hk as <-; reflexivity|].
  destruct (String.eqb status "processing"); [injection Hk as <-; reflexivity|].
  destruct (String.eqb status "error"); [injection Hk as <-; reflexivity|].
  discriminate.
Qed.

(** X9.  A status update with one of the keywords idle, recording,
    processing, error always ends in the state the keyword names, also when
    it carries an error message: a non-empty error is stored, but it decides
    the state only if the keyword is error. *)
Theorem sendStatusUpdate_keyword_decides_state
    (e : Env) (status transcription error : string) (s : VoiceState)
    (st : St) :
  keyword_state status = Some s ->
  _state (fst (sendStatusUpdate e status transcription error st)) = s
  /\ (error <> "" ->
      _error (fst (sendStatusUpdate e status transcription error st)) = error)
  /\ (error = "" ->
      _error (fst (sendStatusUpdate e status transcription error st))
      = _error (fst st)).
Proof.
  intros Hk.
  destruct (keyword_state_sets e status transcription error s st Hk)
    as (st2 & -> & Hst2).
  split; [apply setState_state|].
  destruct (setState_fields s st2) as (F1 & _). rewrite F1.
  assert (Herr : _error (fst st2)
                 = _error (fst (if negb (Str.empty error)
                                then setError error st else st))).
  { subst st2. destruct (negb (Str.empty transcription)); [|reflexivity].
    apply setTranscription_state_fields. }
  rewrite Herr. split.
  - intros Hne. apply Str_empty_false in Hne. rewrite Hne. simpl.
    apply setError_error.
  - intros ->. reflexivity.
Qed.

(** X10.  A WebGUI message that is not JSON leaves the handler in [Error]
    with the message "Invalid message format"; the transcription, the
    script queue and the capture device are left alone. *)
Theorem handleWebGuiMessage_malformed
    (e : Env) (message what : string) (st : St) :
  Json.parse L message = inr what ->
  exists st' : St,
    handleWebGuiMessage L e message st = Some st'
    /\ _state (fst st') = Error
    /\ _error (fst st') = "Invalid message format"
    /\ _transcription (fst st') = _transcription (fst st)
    /\ scriptQueue (snd st') = scriptQueue (snd st)
    /\ capturing (snd st') = capturing (snd st).
Proof.
  intros Hparse. unfold handleWebGuiMessage. rewrite Hparse.
  eexists. split; [reflexivity|].
  unfold invalid_message, sendStatusUpdate. simpl.
  set (st1 := setError "Invalid message format" st).
  destruct (setState_fields Error st1) as (F1 & F2 & _).
  destruct (setState_world Error st1) as (C & Q & _).
  destruct (setError_fields "Invalid message format" st) as (E1 & _).
  destruct (setError_world "Invalid message format" st) as (C' & Q' & _).
  rewrite setState_state, F1, F2, C, Q. subst st1.
  rewrite setError_error, E1, C', Q'. repeat split; reflexivity.
Qed.

(** X11.  The WebGUI action confirm_transcription does to the handler
    exactly what [confirmTranscription] does, in the accepting and in the
    rejecting case alike. *)
Theorem handleWebGuiMessage_confirm_is_confirmTranscription
    (e : Env) (message : string) (members : list (string * Json.json))
    (st : St) :
  Json.parse L message = inl (Json.JObject members) ->
  Json.assoc_last "action" members
    = Some (Json.JString "confirm_transcription") ->
  handleWebGuiMessage L e message st
  = option_map snd (confirmTranscription L e st).
Proof.
  intros Hparse Haction.
  unfold handleWebGuiMessage, confirmTranscription.
  rewrite Hparse. simpl. rewrite Haction. simpl.
  destruct (bool_decide (_state (fst st) = Idle)); simpl.
  - destruct (Str.empty (_transcription (fst st))); simpl; [reflexivity|].
    destruct (generateAndExecuteScript L e _ st); reflexivity.
  - reflexivity.
Qed.

(** X12.  With a capture device that initialises and starts, the WebGUI
    action toggle_recording always flips whether the handler is recording:
    it stops a recording that is running and starts one otherwise. *)
Theorem handleWebGuiMessage_toggle_flips_recording
    (e : Env) (message : string) (members : list (string * Json.json))
    (st st' : St) :
  Json.parse L message = inl (Json.JObject members) ->
  Json.assoc_last "action" members = Some (Json.JString "toggle_recording") ->
  device_init_ok e = true ->
  device_start_ok e = true ->
  handleWebGuiMessage L e message st = Some st' ->
  isRecording (fst st') = negb (isRecording (fst st)).
Proof.
  intros Hparse Haction Hinit Hstart.
  unfold handleWebGuiMessage.
  rewrite Hparse. simpl. rewrite Haction. simpl.
  unfold isRecording.
  destruct (bool_decide (_state (fst st) = Recording)) eqn:Hrec; simpl.
  - destruct (stopRecording L e st) as [[r st1]|] eqn:Hstop; [|discriminate].
    intros [= <-]. destruct st as [h w].
    destruct (stopRecording_outcome L e h w r st1 Hstop) as (Hne & _).
    now apply bool_decide_eq_false_2.
  - intros [= <-]. apply bool_decide_eq_true_2.
    apply bool_decide_eq_false_1 in Hrec.
    destruct st as [h w]. unfold startRecording; simpl in *.
    destruct (decide _); [contradiction|].
    rewrite Hinit, Hstart, andb_false_r. simpl.
    apply setState_state.
Qed.

End VoiceStatus.

Lemma sendStatusUpdate_keyword_decides_state_witness :
  Voice._state
    (fst (Voice.sendStatusUpdate Examples.good_env "idle" "" "boom"
            Examples.recording)) = Voice.Idle
  /\ Voice._error
       (fst (Voice.sendStatusUpdate Examples.good_env "idle" "" "boom"
               Examples.recording)) = "boom".
Proof.
  destruct (sendStatusUpdate_keyword_decides_state Examples.good_env
              "idle" "" "boom" Voice.Idle Examples.recording eq_refl)
    as (Hstate & Herror & _).
  split; [exact Hstate|]. apply Herror. discriminate.
Defined.

Lemma handleWebGuiMessage_malformed_witness :
  exists st' : Voice.St,
    VoiceGui.handleWebGuiMessage JsonText.lib Examples.good_env "not json"
      Examples.recording = Some st'
    /\ Voice._state (fst st') = Voice.Error
    /\ Voice._error (fst st') = "Invalid message format".
Proof.
  destruct (handleWebGuiMessage_malformed JsonText.lib Examples.good_env
              "not json" "parse error" Examples.recording eq_refl)
    as (st' & Hrun & Hstate & Herror & _).
  exists st'. repeat split; assumption.
Defined.

Lemma handleWebGuiMessage_confirm_is_confirmTranscription_witness :
  VoiceGui.handleWebGuiMessage JsonText.lib env_scripting
    (gui_message "confirm_transcription") transcribed
  = option_map snd
      (Voice.confirmTranscription JsonText.lib env_scripting transcribed)
  /\ VoiceGui.handleWebGuiMessage JsonText.lib env_scripting
       (gui_message "confirm_transcription") transcribed
     = Some confirmed.
Proof.
  split; [|vm_compute; reflexivity].
  apply (handleWebGuiMessage_confirm_is_confirmTranscription JsonText.lib
           env_scripting (gui_message "confirm_transcription")
           [("action", Json.JString "confirm_transcription")] transcribed).
  - vm_compute. reflexivity.
  - reflexivity.
Defined.

Lemma handleWebGuiMessage_toggle_flips_recording_witness :
  Voice.isRecording (fst Examples.recording) = true
  /\ Voice.isRecording
       (fst (snd (Voice.startRecording Examples.good_env
                    (Examples.ready, Examples.quiet)))) = true.
Proof.
  split; [reflexivity|].
  apply (handleWebGuiMessage_toggle_flips_recording JsonText.lib
           Examples.good_env (gui_message "toggle_recording")
           [("action", Json.JString "toggle_recording")]
           (Examples.ready, Examples.quiet)).
  - vm_compute. reflexivity.
  - reflexivity.
  - reflexivity.
  - reflexivity.
  - vm_compute. reflexivity.
Defined.

(** ** The voice command topic *)

Section TopicSubscriptions.

Import Voice VoiceTopic.

Variable self : Callback.

Lemma sorted_app_inv (l : list Z) (k : Z) :
  StronglySorted Z.lt (l ++ [k]) ->
  StronglySorted Z.lt l /\ Forall (fun x => x < k) l.
Proof.
  induction l as [|x l IH]; simpl; intros Hs.
  - split; constructor.
  - apply StronglySorted_inv in Hs as [Hs Hall].
    destruct (IH Hs) as [Hl Hk]. split.
    + constructor; [exact Hl|].
      apply Forall_app in Hall. tauto.
    + constructor; [|exact Hk].
      apply Forall_app in Hall as [_ Hall]. now inversion Hall.
Qed.

Lemma erase_last (base : list (Z * Callback)) (k : Z) (cb : Callback) :
  StronglySorted Z.lt (map fst (base ++ [(k, cb)])) ->
  callbacks_erase k (base ++ [(k, cb)]) = base.
Proof.
  intros Hs. rewrite (callbacks_erase_sorted k _ Hs).
  rewrite map_app in Hs. simpl in Hs.
  apply sorted_app_inv in Hs as [_ Hlt].
  rewrite List.filter_app. simpl. rewrite Z.eqb_refl. simpl.
  rewrite app_nil_r.
  apply Forall_keys in Hlt.
  induction Hlt as [|[k' v'] m Hk _ IH]; simpl; [reflexivity|].
  simpl in Hk. destruct (Z.eqb_spec k' k); [lia|]. simpl. now rewrite IH.
Qed.

Lemma sorted_base (base : list (Z * Callback)) (k : Z) (cb : Callback) :
  StronglySorted Z.lt (map fst (base ++ [(k, cb)])) ->
  StronglySorted Z.lt (map fst base).
Proof.
  rewrite map_app. simpl. intros Hs. now apply sorted_app_inv in Hs.
Qed.

Lemma topic_invariant_step (base : list (Z * Callback)) (budget : nat)
    (ev : Event) (ts : TopicSt) :
  topic_invariant self base (starts (ev :: nil) + budget) ts ->
  topic_invariant self base budget (handleEvent self ev ts).
Proof.
  destruct ts as [[t h] sent].
  unfold topic_invariant; simpl.
  intros (Hh & Hpos & Hmax & Hcbs & Hsorted & Hbelow & Hsub).
  destruct ev; simpl.
  - (* start_subscription *)
    rewrite ?Hh; simpl; rewrite ?Hh; simpl.
    unfold INT_MAX in *.
    assert (Hwrap : forall n, n = _nextCallbackHandle h ->
              wrap_int (n + 1) = n + 1).
    { intros n ->. apply wrap_int_small. lia. }
    assert (Hbase : StronglySorted Z.lt (map fst base)
                    /\ Forall (fun entry => fst entry < _nextCallbackHandle h)
                         base
                    /\ (if _callbackHandle t =? -1 then h
                        else removeStateChangeCallback (_callbackHandle t) h)
                       = with_callbacks (_nextCallbackHandle h) base h).
    { unfold registered_by in Hcbs.
      destruct (_callbackHandle t =? -1).
      - rewrite app_nil_r in Hcbs. rewrite <- Hcbs.
        split; [exact Hsorted|]. split; [exact Hbelow|].
        now destruct h.
      - rewrite Hcbs in Hsorted, Hbelow.
        split; [now apply sorted_base in Hsorted|].
        split; [apply Forall_app in Hbelow; tauto|].
        unfold removeStateChangeCallback. rewrite Hcbs.
        now rewrite erase_last. }
    destruct Hbase as (Hsb & Hbb & ->). simpl.
    rewrite (Hwrap _ eq_refl).
    rewrite (callbacks_assign_largest _ self base Hbb).
    assert (Hne : (_nextCallbackHandle h =? -1) = false).
    { apply Z.eqb_neq. lia. }
    unfold registered_by. simpl. rewrite Hne.
    repeat split; try lia; auto.
    + rewrite map_app. simpl. apply sorted_snoc; [exact Hsb|].
      apply Forall_keys. exact Hbb.
    + apply Forall_app. split.
      * eapply List.Forall_impl; [|exact Hbb]. simpl. intros; lia.
      * repeat constructor. simpl. lia.
  - (* stop_subscription *)
    rewrite ?Hh; simpl.
    unfold registered_by in *.
    destruct (_callbackHandle t =? -1) eqn:Hk; simpl.
    + rewrite Hk. apply Z.eqb_eq in Hk.
      repeat split; auto; try congruence.
    + rewrite Hcbs in Hsorted, Hbelow.
      unfold removeStateChangeCallback; simpl.
      rewrite Hcbs. rewrite erase_last by exact Hsorted.
      rewrite app_nil_r.
      repeat split; auto; try congruence.
      * now apply sorted_base in Hsorted.
      * apply Forall_app in Hbelow. tauto.
  - (* refresh *)
    rewrite ?Hh; simpl. repeat split; auto; apply Hsub.
  - repeat split; auto; apply Hsub.
Qed.

Lemma topic_invariant_events (base : list (Z * Callback)) (evs : list Event) :
  forall (budget : nat) (ts : TopicSt),
    topic_invariant self base (starts evs + budget) ts ->
    topic_invariant self base budget (handleEvents self evs ts).
Proof.
  induction evs as [|ev evs IH]; intros budget ts Hinv; [exact Hinv|].
  simpl. apply IH. apply topic_invariant_step.
  replace (starts [ev] + (starts evs + budget))%nat
    with (starts (ev :: evs) + budget)%nat; [exact Hinv|].
  destruct ev; simpl; lia.
Qed.

Lemma sent_by_event (ev : Event) (ts : TopicSt) :
  _voiceHandler (fst (fst ts)) = true ->
  _voiceHandler (fst (fst (handleEvent self ev ts))) = true
  /\ length (snd (handleEvent self ev ts))
     = (length (snd ts) + snapshots [ev])%nat.
Proof.
  destruct ts as [[t h] sent]. simpl. intros Hh.
  destruct ev; simpl; rewrite ?Hh; simpl; rewrite ?Hh; simpl;
    rewrite ?length_app; simpl; split; auto; lia.
Qed.

Lemma sent_by_events (evs : list Event) :
  forall ts : TopicSt,
    _voiceHandler (fst (fst ts)) = true ->
    _voiceHandler (fst (fst (handleEvents self evs ts))) = true
    /\ length (snd (handleEvents self evs ts))
       = (length (snd ts) + snapshots evs)%nat.
Proof.
  induction evs as [|ev evs IH]; intros ts Hh.
  - simpl. split; [exact Hh|lia].
  - change (handleEvents self (ev :: evs) ts)
      with (handleEvents self evs (handleEvent self ev ts)).
    destruct (sent_by_event ev ts Hh) as [H1 H2].
    destruct (IH _ H1) as [H3 H4]. split; [exact H3|].
    rewrite H4, H2. destruct ev; simpl; lia.
Qed.

(** X13.  A topic that starts out unsubscribed, on a handler whose callback
    map is in order, never has more than one callback registered, whatever
    control events it receives: after the events the handler holds the
    callbacks it held before, followed by the topic's own callback if the
    topic is subscribed and by nothing if it is not.  The topic is
    subscribed exactly when its handle is not -1, and one state snapshot
    has been sent for every start_subscription and every refresh event. *)
Theorem topic_keeps_at_most_one_callback
    (evs : list Event) (t0 : VoiceCommandTopic) (h0 : VoiceCommandHandler)
    (sent0 : list Json.json) :
  _voiceHandler t0 = true ->
  _callbackHandle t0 = -1 ->
  _isSubscribed t0 = false ->
  0 <= _nextCallbackHandle h0 ->
  _nextCallbackHandle h0 + Z.of_nat (starts evs) <= INT_MAX ->
  StronglySorted Z.lt (map fst (_stateChangeCallbacks h0)) ->
  Forall (fun entry => fst entry < _nextCallbackHandle h0)
    (_stateChangeCallbacks h0) ->
  let ts := handleEvents self evs (t0, h0, sent0) in
  _stateChangeCallbacks (snd (fst ts))
  = _stateChangeCallbacks h0 ++ registered_by self (fst (fst ts))
  /\ (_isSubscribed (fst (fst ts)) = true
      <-> _callbackHandle (fst (fst ts)) <> -1)
  /\ length (snd ts) = (length sent0 + snapshots evs)%nat.
Proof.
  intros Hh Hk Hsub Hpos Hmax Hsorted Hbelow ts.
  assert (Hinv : topic_invariant self (_stateChangeCallbacks h0) 0 ts).
  { apply topic_invariant_events. unfold topic_invariant; simpl.
    unfold registered_by. rewrite Hk, Hsub. simpl.
    rewrite app_nil_r, Nat.add_0_r.
    repeat split; auto; congruence. }
  destruct Hinv as (_ & _ & _ & Hcbs & _ & _ & Hiff).
  split; [exact Hcbs|]. split; [exact Hiff|].
  apply (sent_by_events evs (t0, h0, sent0) Hh).
Qed.

End TopicSubscriptions.

Lemma topic_keeps_at_most_one_callback_witness :
  Voice._stateChangeCallbacks
    (snd (fst (VoiceTopic.handleEvents 9%nat topic_events
                 (fresh_topic, Examples.ready, []))))
  = [(0, 7%nat); (3, 9%nat)]
  /\ length (snd (VoiceTopic.handleEvents 9%nat topic_events
                    (fresh_topic, Examples.ready, []))) = 4%nat.
Proof.
  destruct (topic_keeps_at_most_one_callback 9%nat topic_events fresh_topic
              Examples.ready [] eq_refl eq_refl eq_refl)
    as (Hcbs & _ & Hsent).
  - vm_compute. discriminate.
  - vm_compute. discriminate.
  - repeat constructor.
  - repeat constructor.
  - split; [exact Hcbs|exact Hsent].
Defined.

(** * Further properties of the duplicate-name algorithm *)

Section DuplicateNames.

Import ProfileEdit.

Lemma pick_free_first_free (fuel : nat) (fs : gset string)
    (base profile : string) :
  forall (version : Z) (name : string),
    pick_free fuel fs base profile version = Some name ->
    exists k : nat,
      (k < fuel)%nat
      /\ name = candidate profile (later_version (S k) version)
      /\ exists_on_disk fs
           (candidatePath base profile (later_version (S k) version)) = false
      /\ forall i : nat, (i < k)%nat ->
           exists_on_disk fs
             (candidatePath base profile (later_version (S i) version)) = true.
Proof.
  induction fuel as [|fuel IH]; intros version name; simpl; [discriminate|].
  destruct (exists_on_disk fs _) eqn:Htaken.
  - intros Hpick. destruct (IH _ _ Hpick) as (k & Hk & Hname & Hfree & Hbefore).
    exists (S k). split; [lia|]. split; [exact Hname|]. split; [exact Hfree|].
    intros [|i] Hi; [exact Htaken|]. apply Hbefore. lia.
  - intros [= <-]. exists O. split; [lia|]. split; [reflexivity|].
    split; [exact Htaken|]. intros i Hi. lia.
Qed.

(** X14.  The name that the duplicate button puts into the name field is
    never the name of a profile that exists: it is the base name with the
    first version after the parsed one whose file is not on disk, every
    version tried before it being taken. *)
Theorem duplicateProfile_picks_first_free_version
    (fuel : nat) (fs : gset string) (profileBasePath text name : string) :
  duplicateProfile fuel fs profileBasePath text = Some (SetText name) ->
  ((profileBasePath +:+ name +:+ ".profile") ∉ fs)
  /\ exists (profile : string) (version : Z) (k : nat),
       split_version text = Some (profile, version)
       /\ name = candidate profile (later_version (S k) version)
       /\ forall i : nat, (i < k)%nat ->
            (profileBasePath
             +:+ candidate profile (later_version (S i) version)
             +:+ ".profile") ∈ fs.
Proof.
  unfold duplicateProfile.
  destruct (Str.empty text); [discriminate|].
  destruct (split_version text) as [[profile version]|]; [|discriminate].
  destruct (pick_free fuel fs profileBasePath profile version) as [n|] eqn:Hp;
    [|discriminate].
  intros [= <-].
  destruct (pick_free_first_free fuel fs profileBasePath profile version n Hp)
    as (k & _ & -> & Hfree & Hbefore).
  split.
  - unfold exists_on_disk, candidatePath in Hfree.
    now apply bool_decide_eq_false_1 in Hfree.
  - exists profile, version, k. split; [reflexivity|]. split; [reflexivity|].
    intros i Hi. specialize (Hbefore i Hi).
    unfold exists_on_disk, candidatePath in Hbefore.
    now apply bool_decide_eq_true_1 in Hbefore.
Qed.

End DuplicateNames.

Lemma duplicateProfile_picks_first_free_version_witness :
  ("/profiles/" +:+ "Earth_5" +:+ ".profile") ∉ profiles_on_disk.
Proof.
  apply (duplicateProfile_picks_first_free_version 10 profiles_on_disk
           "/profiles/" "Earth_3" "Earth_5").
  vm_compute. reflexivity.
Defined.

Section DuplicateLoop.

Import ProfileEdit.

Lemma append_cancel_r (t : string) :
  forall a b : string, a +:+ t = b +:+ t -> a = b.
Proof.
  assert (Hlen : forall a c, String.length (String c a +:+ t) <> String.length t).
  { intros a c. rewrite append_cons. simpl. rewrite string_length_append. lia. }
  induction a as [|x a IH]; intros [|y b] H.
  - reflexivity.
  - exfalso. apply (Hlen b y). rewrite <- H. reflexivity.
  - exfalso. apply (Hlen a x). rewrite H. reflexivity.
  - rewrite !append_cons in H. injection H as -> H. f_equal. now apply IH.
Qed.

Lemma candidatePath_inj (base profile : string) (u v : Z) :
  candidatePath base profile u = candidatePath base profile v -> u = v.
Proof.
  unfold candidatePath, candidate, Separator. intros H.
  apply String.app_inj in H.
  rewrite !string_append_assoc in H.
  apply String.app_inj in H. apply String.app_inj in H.
  apply append_cancel_r in H.
  now apply (inj pretty) in H.
Qed.

Lemma pick_free_agree (fuel : nat) (fs fs' : gset string)
    (base profile : string) :
  forall version : Z,
    - 2 ^ 31 <= version + 1 ->
    version + Z.of_nat fuel < 2 ^ 31 ->
    (forall u : Z, version < u <= version + Z.of_nat fuel ->
       (candidatePath base profile u ∈ fs
        <-> candidatePath base profile u ∈ fs')) ->
    pick_free fuel fs base profile version
    = pick_free fuel fs' base profile version.
Proof.
  induction fuel as [|fuel IH]; intros version Hlo Hhi Hagree; [reflexivity|].
  simpl. rewrite wrap_int_small by lia.
  unfold exists_on_disk.
  assert (Hhere : bool_decide (candidatePath base profile (version + 1) ∈ fs)
                  = bool_decide (candidatePath base profile (version + 1) ∈ fs')).
  { apply bool_decide_ext. apply Hagree. lia. }
  rewrite Hhere.
  destruct (bool_decide (candidatePath base profile (version + 1) ∈ fs'));
    [|reflexivity].
  apply IH; [lia|lia|]. intros u Hu. apply Hagree. lia.
Qed.

Lemma pick_free_terminates (n : nat) :
  forall (fs : gset string) (base profile : string) (version : Z),
    (size fs <= n)%nat ->
    - 2 ^ 31 <= version + 1 ->
    version + Z.of_nat n + 1 < 2 ^ 31 ->
    pick_free (S n) fs base profile version <> None.
Proof.
  induction n as [|n IH]; intros fs base profile version Hsize Hlo Hhi.
  - simpl. rewrite wrap_int_small by lia.
    assert (fs = ∅) as -> by (apply leibniz_equiv, size_empty_iff; lia).
    unfold exists_on_disk.
    rewrite bool_decide_eq_false_2 by apply not_elem_of_empty.
    discriminate.
  - change (pick_free (S (S n)) fs base profile version)
      with (let v := Voice.wrap_int (version + 1) in
            if exists_on_disk fs (candidatePath base profile v)
            then pick_free (S n) fs base profile v
            else Some (candidate profile v)).
    cbv zeta. rewrite wrap_int_small by lia.
    unfold exists_on_disk.
    destruct (bool_decide (candidatePath base profile (version + 1) ∈ fs))
      eqn:Htaken; [|discriminate].
    apply bool_decide_eq_true_1 in Htaken.
    rewrite (pick_free_agree (S n) fs
               (fs ∖ {[ candidatePath base profile (version + 1) ]})).
    + apply IH; [|lia|lia].
      assert (size fs = S (size (fs ∖ {[candidatePath base profile (version + 1)]}))).
      { rewrite (size_difference fs {[candidatePath base profile (version + 1)]}).
        - rewrite size_singleton.
          assert (size fs <> 0)%nat.
          { intros H0. apply size_empty_iff in H0.
            rewrite H0 in Htaken. now apply not_elem_of_empty in Htaken. }
          lia.
        - apply singleton_subseteq_l. exact Htaken. }
      lia.
    + lia.
    + lia.
    + intros u Hu. rewrite elem_of_difference, elem_of_singleton.
      split; [|tauto]. intros Hin. split; [exact Hin|].
      intros Heq. apply candidatePath_inj in Heq. lia.
Qed.

Lemma stoi_range (s : string) (v : Z) :
  stoi s = Converted v -> INT_MIN <= v <= INT_MAX.
Proof.
  unfold stoi.
  destruct (snd (digits 0 0 _)); [discriminate|].
  destruct (_ && _) eqn:Hrange; [|discriminate].
  intros [= <-]. apply andb_true_iff in Hrange as [H1 H2].
  apply Z.leb_le in H1, H2. split; assumption.
Qed.

Lemma split_version_range (text profile : string) (version : Z) :
  split_version text = Some (profile, version) ->
  INT_MIN <= version <= INT_MAX.
Proof.
  unfold split_version, INT_MIN, INT_MAX.
  destruct (Str.rfind "_" text) as [it|]; [|intros [= _ <-]; lia].
  destruct (stoi _) as [value| |] eqn:Hstoi; [|intros [= _ <-]; lia|discriminate].
  intros [= _ <-]. apply stoi_range in Hstoi. exact Hstoi.
Qed.

(** X15.  The loop of the duplicate button ends: with [n] paths on disk it
    finds a free name within [n + 1] rounds, provided the versions it tries
    stay below [INT_MAX]. *)
Theorem duplicateProfile_ends_within_size_rounds
    (fs : gset string) (profileBasePath text profile : string) (version : Z) :
  split_version text = Some (profile, version) ->
  version + Z.of_nat (size fs) < INT_MAX ->
  exists o : outcome,
    duplicateProfile (S (size fs)) fs profileBasePath text = Some o
    /\ (text <> "" -> exists name : string, o = SetText name).
Proof.
  intros Hsplit Hmax.
  pose proof (split_version_range text profile version Hsplit) as [Hmin _].
  unfold INT_MIN, INT_MAX in *.
  unfold duplicateProfile. rewrite Hsplit.
  destruct (Str.empty text) eqn:Hempty.
  - exists Unchanged. split; [reflexivity|].
    apply Str_empty_true in Hempty. congruence.
  - destruct (pick_free (S (size fs)) fs profileBasePath profile version)
      as [name|] eqn:Hpick.
    + exists (SetText name). split; [reflexivity|]. eauto.
    + exfalso. revert Hpick. apply pick_free_terminates; lia.
Qed.

Lemma digit_of_pretty_char (d : N) :
  (d < 10)%N -> JsonText.digit (pretty_N_char d) = Some (Z.of_N d).
Proof.
  intros Hd.
  assert (d = 0 \/ d = 1 \/ d = 2 \/ d = 3 \/ d = 4 \/ d = 5 \/ d = 6
          \/ d = 7 \/ d = 8 \/ d = 9)%N as H by lia.
  repeat (destruct H as [->|H]; [reflexivity|]). subst d. reflexivity.
Qed.

Lemma digits_of_pretty_go (x : N) :
  exists k : nat,
    ((0 < x)%N -> (0 < k)%nat)
    /\ forall (s : string) (acc : Z) (cnt : nat),
         digits acc cnt (pretty_N_go x s)
         = digits (acc * 10 ^ Z.of_nat k + Z.of_N x) (cnt + k) s.
Proof.
  induction (N.lt_wf_0 x) as [x _ IH].
  destruct (N.eq_dec x 0%N) as [->|Hx].
  - exists O. split; [lia|]. intros s acc cnt. rewrite pretty_N_go_0.
    f_equal; [simpl; lia|lia].
  - assert (Hpos : (0 < x)%N) by lia.
    destruct (IH (x `div` 10)%N) as (k & _ & Hk).
    { apply N.div_lt; lia. }
    exists (S k). split; [lia|]. intros s acc cnt.
    rewrite pretty_N_go_step by exact Hpos.
    rewrite Hk. simpl digits.
    rewrite digit_of_pretty_char by (apply N.mod_lt; lia).
    f_equal; [|lia].
    rewrite Nat2Z.inj_succ, Z.pow_succ_r by lia.
    pose proof (N.div_mod x 10 ltac:(lia)) as Hdm.
    apply (f_equal Z.of_N) in Hdm.
    rewrite N2Z.inj_add, N2Z.inj_mul in Hdm. simpl Z.of_N in Hdm. lia.
Qed.

Lemma pretty_go_head (x : N) (s : string) :
  (0 < x)%N ->
  exists (d : N) (rest : string),
    (d < 10)%N /\ pretty_N_go x s = String (pretty_N_char d) rest.
Proof.
  revert s. induction (N.lt_wf_0 x) as [x _ IH]. intros s Hpos.
  rewrite pretty_N_go_step by exact Hpos.
  destruct (N.eq_dec (x `div` 10)%N 0%N) as [H0|H0].
  - rewrite H0, pretty_N_go_0. eexists _, _. split; [|reflexivity].
    apply N.mod_lt. lia.
  - apply IH; [apply N.div_lt; lia|].
    apply N.neq_0_lt_0. exact H0.
Qed.

Lemma stoi_digit_head (d : N) (rest : string) :
  (d < 10)%N ->
  stoi (String (pretty_N_char d) rest)
  = match snd (digits 0 0 (String (pretty_N_char d) rest)) with
    | O => InvalidArgument
    | S _ =>
        if (INT_MIN <=? fst (digits 0 0 (String (pretty_N_char d) rest)))
           && (fst (digits 0 0 (String (pretty_N_char d) rest)) <=? INT_MAX)
        then Converted (fst (digits 0 0 (String (pretty_N_char d) rest)))
        else OutOfRange
    end.
Proof.
  intros Hd.
  assert (d = 0 \/ d = 1 \/ d = 2 \/ d = 3 \/ d = 4 \/ d = 5 \/ d = 6
          \/ d = 7 \/ d = 8 \/ d = 9)%N as H by lia.
  repeat (destruct H as [->|H]; [reflexivity|]). subst d. reflexivity.
Qed.

Lemma stoi_pretty_positive (p : positive) :
  Z.pos p <= INT_MAX -> stoi (pretty (Z.pos p)) = Converted (Z.pos p).
Proof.
  intros Hmax.
  change (pretty (Z.pos p)) with (pretty_N_go (N.pos p) "").
  destruct (pretty_go_head (N.pos p) "" ltac:(lia)) as (d & rest & Hd & Hhead).
  destruct (digits_of_pretty_go (N.pos p)) as (k & Hk & Hdigits).
  specialize (Hdigits "" 0 O).
  rewrite Z.mul_0_l, Z.add_0_l in Hdigits. simpl in Hdigits.
  rewrite Hhead in *. rewrite stoi_digit_head by exact Hd.
  rewrite Hdigits. simpl.
  destruct k as [|k]; [specialize (Hk ltac:(lia)); lia|].
  unfold INT_MIN, INT_MAX in *.
  destruct (Z.leb_spec (-2147483648) (Z.pos p)); [|lia].
  destruct (Z.leb_spec (Z.pos p) 2147483647); [|lia].
  reflexivity.
Qed.

Lemma stoi_minus (r : string) :
  stoi (String "-" r)
  = match snd (digits 0 0 r) with
    | O => InvalidArgument
    | S _ =>
        if (INT_MIN <=? - fst (digits 0 0 r))
           && (- fst (digits 0 0 r) <=? INT_MAX)
        then Converted (- fst (digits 0 0 r))
        else OutOfRange
    end.
Proof. reflexivity. Qed.

Lemma stoi_pretty (v : Z) :
  INT_MIN <= v <= INT_MAX -> stoi (pretty v) = Converted v.
Proof.
  intros [Hmin Hmax]. destruct v as [|p|p].
  - reflexivity.
  - now apply stoi_pretty_positive.
  - change (pretty (Z.neg p)) with ("-" +:+ pretty_N_go (N.pos p) "").
    destruct (digits_of_pretty_go (N.pos p)) as (k & Hk & Hdigits).
    specialize (Hdigits "" 0 O).
    rewrite Z.mul_0_l, Z.add_0_l in Hdigits. simpl in Hdigits.
    rewrite append_cons, append_empty, stoi_minus, Hdigits. cbn [fst snd].
    destruct k as [|k]; [specialize (Hk ltac:(lia)); lia|].
    unfold INT_MIN, INT_MAX in *.
    change (- Z.pos p) with (Z.neg p).
    destruct (Z.leb_spec (-2147483648) (Z.neg p)); [|lia].
    destruct (Z.leb_spec (Z.neg p) 2147483647); [|lia].
    reflexivity.
Qed.

Lemma rfind_none_cons (c x : ascii) (t : string) :
  Ascii.eqb x c = false -> Str.rfind c t = None -> Str.rfind c (String x t) = None.
Proof. intros Hx Ht. simpl. now rewrite Ht, Hx. Qed.

Lemma pretty_char_not_separator (d : N) :
  Ascii.eqb (pretty_N_char d) "_" = false.
Proof. unfold pretty_N_char. repeat case_match; reflexivity. Qed.

Lemma rfind_pretty_go (x : N) :
  forall s : string,
    Str.rfind "_" s = None -> Str.rfind "_" (pretty_N_go x s) = None.
Proof.
  induction (N.lt_wf_0 x) as [x _ IH]. intros s Hs.
  destruct (N.eq_dec x 0%N) as [->|Hx]; [now rewrite pretty_N_go_0|].
  rewrite pretty_N_go_step by lia.
  apply IH; [apply N.div_lt; lia|].
  apply rfind_none_cons; [apply pretty_char_not_separator|exact Hs].
Qed.

Lemma rfind_pretty (v : Z) : Str.rfind "_" (pretty v) = None.
Proof.
  destruct v as [|p|p].
  - reflexivity.
  - change (pretty (Z.pos p)) with (pretty_N_go (N.pos p) "").
    now apply rfind_pretty_go.
  - change (pretty (Z.neg p)) with ("-" +:+ pretty_N_go (N.pos p) "").
    rewrite append_cons, append_empty.
    apply rfind_none_cons; [reflexivity|]. now apply rfind_pretty_go.
Qed.

Lemma rfind_last (c : ascii) (a t : string) :
  Str.rfind c t = None ->
  Str.rfind c (a +:+ String c t) = Some (String.length a).
Proof.
  intros Ht. induction a as [|x a IH].
  - rewrite append_empty. simpl. now rewrite Ht, Ascii.eqb_refl.
  - rewrite append_cons. simpl. now rewrite IH.
Qed.

Lemma substring_whole (t : string) : String.substring 0 (String.length t) t = t.
Proof. induction t as [|c t IH]; simpl; [reflexivity|]. now rewrite IH. Qed.

Lemma substring_prefix (a s : string) :
  String.substring 0 (String.length a) (a +:+ s) = a.
Proof.
  induction a as [|c a IH].
  - rewrite append_empty. destruct s; reflexivity.
  - rewrite append_cons. simpl. now rewrite IH.
Qed.

Lemma substring_skip (a s : string) (n m : nat) :
  String.substring (String.length a + n) m (a +:+ s) = String.substring n m s.
Proof.
  induction a as [|c a IH]; [reflexivity|].
  rewrite append_cons. simpl. exact IH.
Qed.

Lemma split_version_of_candidate (profile : string) (v : Z) :
  INT_MIN <= v <= INT_MAX ->
  split_version (candidate profile v) = Some (profile, v).
Proof.
  intros Hv. unfold split_version, candidate, Separator.
  rewrite append_cons, append_empty.
  rewrite (rfind_last "_" profile (pretty v) (rfind_pretty v)).
  unfold Str.substr_from, Str.substr.
  rewrite string_length_append. simpl String.length.
  replace (String.length profile + S (String.length (pretty v))
           - S (String.length profile))%nat
    with (String.length (pretty v)) by lia.
  replace (S (String.length profile)) with (String.length profile + 1)%nat by lia.
  rewrite substring_skip. simpl String.substring at 1.
  rewrite substring_whole, (stoi_pretty v Hv).
  now rewrite substring_prefix.
Qed.

(** X16.  The suffix that the duplicate button writes is the one it reads
    back: a name made of a base name, the separator and a version splits
    into that base name and that version, whatever separators the base name
    contains.  So duplicating such a name whose next version is free gives
    the same base name with the version increased by one. *)
Theorem duplicateProfile_increments_its_own_suffix
    (fuel : nat) (fs : gset string) (profileBasePath profile : string)
    (v : Z) :
  INT_MIN <= v < INT_MAX ->
  (profileBasePath +:+ candidate profile (v + 1) +:+ ".profile") ∉ fs ->
  split_version (candidate profile v) = Some (profile, v)
  /\ duplicateProfile (S fuel) fs profileBasePath (candidate profile v)
     = Some (SetText (candidate profile (v + 1))).
Proof.
  intros Hv Hfree.
  assert (Hsplit : split_version (candidate profile v) = Some (profile, v)).
  { apply split_version_of_candidate. lia. }
  split; [exact Hsplit|].
  unfold duplicateProfile. rewrite Hsplit.
  assert (Hne : Str.empty (candidate profile v) = false).
  { unfold candidate. destruct profile; reflexivity. }
  rewrite Hne. simpl.
  unfold INT_MIN, INT_MAX in *.
  rewrite wrap_int_small by lia.
  unfold exists_on_disk, candidatePath.
  rewrite bool_decide_eq_false_2 by exact Hfree.
  reflexivity.
Qed.

End DuplicateLoop.

Lemma duplicateProfile_ends_within_size_rounds_witness :
  exists o : ProfileEdit.outcome,
    ProfileEdit.duplicateProfile 3 profiles_on_disk "/profiles/" "Earth_3"
    = Some o
    /\ exists name : string, o = ProfileEdit.SetText name.
Proof.
  destruct (duplicateProfile_ends_within_size_rounds profiles_on_disk
              "/profiles/" "Earth_3" "Earth" 3 eq_refl)
    as (o & Hrun & Hname).
  - vm_compute. reflexivity.
  - exists o. split; [exact Hrun|]. apply Hname. discriminate.
Defined.

Lemma duplicateProfile_increments_its_own_suffix_witness :
  ProfileEdit.split_version "my_profile_-7" = Some ("my_profile", -7)
  /\ ProfileEdit.duplicateProfile 1 profiles_on_disk "/profiles/"
       "my_profile_-7"
     = Some (ProfileEdit.SetText "my_profile_-6").
Proof.
  apply (duplicateProfile_increments_its_own_suffix 0 profiles_on_disk
           "/profiles/" "my_profile" (-7)).
  - unfold ProfileEdit.INT_MIN, ProfileEdit.INT_MAX. lia.
  - apply (bool_decide_eq_false_1 _). vm_compute. reflexivity.
Defined.
